(** * Repair scripts for [src/testing/test-utils.ts]: a shallow embedding

    The repository holds four Python scripts that repair broken TypeScript
    text: [clean_test_utils.py] (a brace-balance scan over the lines of a
    document followed by a splice of replacement lines),
    [fix_test_utils.py] (a line loop that closes arrow-function blocks),
    [fix_remaining_syntax.py] (an ordered list of [re.sub] rewrites run
    over a batch of files) and [fix_test_utils_syntax.py] (one more fixed
    list of [re.sub] rewrites).

    Text is modelled as [list ascii]: the bytes of the UTF-8 text the
    scripts read.  Where Python looks at a whole character, for the classes
    [\s] and [\w] and for [str.strip], the model decodes the character
    from its bytes.  Python integers are [Z], indices and counters that
    only grow from 0 are [nat].

    The file is in two parts: the embedding of the scripts together with
    the notions the statements use, then the lemmas and theorems. *)

From Stdlib Require Import ZArith Ascii String List Lia DecimalString.
From stdpp Require Import gmap strings list.

Local Open Scope Z_scope.

(** ** Python strings *)

Abbreviation str := (list ascii).

Definition lit (s : string) : str := list_ascii_of_string s.

Definition newline : ascii := ascii_of_nat 10.
Definition backslash : ascii := ascii_of_nat 92.
Definition dquote : ascii := ascii_of_nat 34.

(** [s.split(sep)] for a separator of one character. *)
Fixpoint str_split (sep : ascii) (s : str) : list str :=
  match s with
  | [] => [[]]
  | c :: s' =>
      if Ascii.eqb c sep then [] :: str_split sep s'
      else match str_split sep s' with
           | l :: ls => (c :: l) :: ls
           | [] => [[c]]
           end
  end.

(** [sep.join(ls)]. *)
Fixpoint str_join (sep : str) (ls : list str) : str :=
  match ls with
  | [] => []
  | l :: ls' =>
      match ls' with
      | [] => l
      | _ :: _ => l ++ sep ++ str_join sep ls'
      end
  end.

(** [s.count(c)] for a pattern of one character. *)
Fixpoint str_count (c : ascii) (s : str) : nat :=
  match s with
  | [] => 0%nat
  | a :: s' => if Ascii.eqb a c then S (str_count c s') else str_count c s'
  end.

Fixpoint starts_with (p s : str) : bool :=
  match p, s with
  | [], _ => true
  | _ :: _, [] => false
  | a :: p', b :: s' => Ascii.eqb a b && starts_with p' s'
  end.

(** [sub in s]. *)
Fixpoint str_in (sub s : str) : bool :=
  starts_with sub s ||
  match s with
  | [] => false
  | _ :: s' => str_in sub s'
  end.

(** ** Characters

    One character of the text from its UTF-8 bytes: the code point and the
    number of bytes, for a well-formed sequence at the head of [s]. *)

Definition byte (c : ascii) : N := N_of_ascii c.

Definition in_rng (lo hi b : N) : bool := ((lo <=? b) && (b <=? hi))%N.

Definition decode1 (s : str) : option (N * nat) :=
  match s with
  | [] => None
  | c0 :: s1 =>
      let b0 := byte c0 in
      if (b0 <? 128)%N then Some (b0, 1%nat)
      else if in_rng 194 223 b0 then
        match s1 with
        | c1 :: _ =>
            if in_rng 128 191 (byte c1)
            then Some (((b0 - 192) * 64 + (byte c1 - 128))%N, 2%nat)
            else None
        | _ => None
        end
      else if in_rng 224 239 b0 then
        match s1 with
        | c1 :: c2 :: _ =>
            if in_rng (if (b0 =? 224)%N then 160 else 128)
                      (if (b0 =? 237)%N then 159 else 191) (byte c1)
               && in_rng 128 191 (byte c2)
            then Some (((b0 - 224) * 4096 + (byte c1 - 128) * 64
                        + (byte c2 - 128))%N, 3%nat)
            else None
        | _ => None
        end
      else if in_rng 240 244 b0 then
        match s1 with
        | c1 :: c2 :: c3 :: _ =>
            if in_rng (if (b0 =? 240)%N then 144 else 128)
                      (if (b0 =? 244)%N then 143 else 191) (byte c1)
               && in_rng 128 191 (byte c2) && in_rng 128 191 (byte c3)
            then Some (((b0 - 240) * 262144 + (byte c1 - 128) * 4096
                        + (byte c2 - 128) * 64 + (byte c3 - 128))%N, 4%nat)
            else None
        | _ => None
        end
      else None
  end.

(** [str.isspace] on one character, which is also the class [\s] of [re]:
    the ASCII blanks 9-13, 28-32 and the blanks U+0085, U+00A0, U+1680,
    U+2000-200A, U+2028, U+2029, U+202F, U+205F, U+3000. *)
Definition is_space_cp (cp : N) : bool :=
  in_rng 9 13 cp || in_rng 28 32 cp || (cp =? 133)%N || (cp =? 160)%N
  || (cp =? 5760)%N || in_rng 8192 8202 cp || in_rng 8232 8233 cp
  || (cp =? 8239)%N || (cp =? 8287)%N || (cp =? 12288)%N.

(** The class [\w] of [re] on text: the underscore and the characters for
    which [str.isalnum] holds (CPython 3.11, Unicode 14), as ranges of code
    points. *)
Definition word_ranges : list (N * N) :=
  [(48, 57); (65, 90); (95, 95); (97, 122); (170, 170); (178, 179); (181, 181);
   (185, 186); (188, 190); (192, 214); (216, 246); (248, 705); (710, 721); (736, 740);
   (748, 748); (750, 750); (880, 884); (886, 887); (890, 893); (895, 895); (902, 902);
   (904, 906); (908, 908); (910, 929); (931, 1013); (1015, 1153); (1162, 1327);
   (1329, 1366); (1369, 1369); (1376, 1416); (1488, 1514); (1519, 1522); (1568, 1610);
   (1632, 1641); (1646, 1647); (1649, 1747); (1749, 1749); (1765, 1766); (1774, 1788);
   (1791, 1791); (1808, 1808); (1810, 1839); (1869, 1957); (1969, 1969); (1984, 2026);
   (2036, 2037); (2042, 2042); (2048, 2069); (2074, 2074); (2084, 2084); (2088, 2088);
   (2112, 2136); (2144, 2154); (2160, 2183); (2185, 2190); (2208, 2249); (2308, 2361);
   (2365, 2365); (2384, 2384); (2392, 2401); (2406, 2415); (2417, 2432); (2437, 2444);
   (2447, 2448); (2451, 2472); (2474, 2480); (2482, 2482); (2486, 2489); (2493, 2493);
   (2510, 2510); (2524, 2525); (2527, 2529); (2534, 2545); (2548, 2553); (2556, 2556);
   (2565, 2570); (2575, 2576); (2579, 2600); (2602, 2608); (2610, 2611); (2613, 2614);
   (2616, 2617); (2649, 2652); (2654, 2654); (2662, 2671); (2674, 2676); (2693, 2701);
   (2703, 2705); (2707, 2728); (2730, 2736); (2738, 2739); (2741, 2745); (2749, 2749);
   (2768, 2768); (2784, 2785); (2790, 2799); (2809, 2809); (2821, 2828); (2831, 2832);
   (2835, 2856); (2858, 2864); (2866, 2867); (2869, 2873); (2877, 2877); (2908, 2909);
   (2911, 2913); (2918, 2927); (2929, 2935); (2947, 2947); (2949, 2954); (2958, 2960);
   (2962, 2965); (2969, 2970); (2972, 2972); (2974, 2975); (2979, 2980); (2984, 2986);
   (2990, 3001); (3024, 3024); (3046, 3058); (3077, 3084); (3086, 3088); (3090, 3112);
   (3114, 3129); (3133, 3133); (3160, 3162); (3165, 3165); (3168, 3169); (3174, 3183);
   (3192, 3198); (3200, 3200); (3205, 3212); (3214, 3216); (3218, 3240); (3242, 3251);
   (3253, 3257); (3261, 3261); (3293, 3294); (3296, 3297); (3302, 3311); (3313, 3314);
   (3332, 3340); (3342, 3344); (3346, 3386); (3389, 3389); (3406, 3406); (3412, 3414);
   (3416, 3425); (3430, 3448); (3450, 3455); (3461, 3478); (3482, 3505); (3507, 3515);
   (3517, 3517); (3520, 3526); (3558, 3567); (3585, 3632); (3634, 3635); (3648, 3654);
   (3664, 3673); (3713, 3714); (3716, 3716); (3718, 3722); (3724, 3747); (3749, 3749);
   (3751, 3760); (3762, 3763); (3773, 3773); (3776, 3780); (3782, 3782); (3792, 3801);
   (3804, 3807); (3840, 3840); (3872, 3891); (3904, 3911); (3913, 3948); (3976, 3980);
   (4096, 4138); (4159, 4169); (4176, 4181); (4186, 4189); (4193, 4193); (4197, 4198);
   (4206, 4208); (4213, 4225); (4238, 4238); (4240, 4249); (4256, 4293); (4295, 4295);
   (4301, 4301); (4304, 4346); (4348, 4680); (4682, 4685); (4688, 4694); (4696, 4696);
   (4698, 4701); (4704, 4744); (4746, 4749); (4752, 4784); (4786, 4789); (4792, 4798);
   (4800, 4800); (4802, 4805); (4808, 4822); (4824, 4880); (4882, 4885); (4888, 4954);
   (4969, 4988); (4992, 5007); (5024, 5109); (5112, 5117); (5121, 5740); (5743, 5759);
   (5761, 5786); (5792, 5866); (5870, 5880); (5888, 5905); (5919, 5937); (5952, 5969);
   (5984, 5996); (5998, 6000); (6016, 6067); (6103, 6103); (6108, 6108); (6112, 6121);
   (6128, 6137); (6160, 6169); (6176, 6264); (6272, 6276); (6279, 6312); (6314, 6314);
   (6320, 6389); (6400, 6430); (6470, 6509); (6512, 6516); (6528, 6571); (6576, 6601);
   (6608, 6618); (6656, 6678); (6688, 6740); (6784, 6793); (6800, 6809); (6823, 6823);
   (6917, 6963); (6981, 6988); (6992, 7001); (7043, 7072); (7086, 7141); (7168, 7203);
   (7232, 7241); (7245, 7293); (7296, 7304); (7312, 7354); (7357, 7359); (7401, 7404);
   (7406, 7411); (7413, 7414); (7418, 7418); (7424, 7615); (7680, 7957); (7960, 7965);
   (7968, 8005); (8008, 8013); (8016, 8023); (8025, 8025); (8027, 8027); (8029, 8029);
   (8031, 8061); (8064, 8116); (8118, 8124); (8126, 8126); (8130, 8132); (8134, 8140);
   (8144, 8147); (8150, 8155); (8160, 8172); (8178, 8180); (8182, 8188); (8304, 8305);
   (8308, 8313); (8319, 8329); (8336, 8348); (8450, 8450); (8455, 8455); (8458, 8467);
   (8469, 8469); (8473, 8477); (8484, 8484); (8486, 8486); (8488, 8488); (8490, 8493);
   (8495, 8505); (8508, 8511); (8517, 8521); (8526, 8526); (8528, 8585); (9312, 9371);
   (9450, 9471); (10102, 10131); (11264, 11492); (11499, 11502); (11506, 11507);
   (11517, 11517); (11520, 11557); (11559, 11559); (11565, 11565); (11568, 11623);
   (11631, 11631); (11648, 11670); (11680, 11686); (11688, 11694); (11696, 11702);
   (11704, 11710); (11712, 11718); (11720, 11726); (11728, 11734); (11736, 11742);
   (11823, 11823); (12293, 12295); (12321, 12329); (12337, 12341); (12344, 12348);
   (12353, 12438); (12445, 12447); (12449, 12538); (12540, 12543); (12549, 12591);
   (12593, 12686); (12690, 12693); (12704, 12735); (12784, 12799); (12832, 12841);
   (12872, 12879); (12881, 12895); (12928, 12937); (12977, 12991); (13312, 19903);
   (19968, 42124); (42192, 42237); (42240, 42508); (42512, 42539); (42560, 42606);
   (42623, 42653); (42656, 42735); (42775, 42783); (42786, 42888); (42891, 42954);
   (42960, 42961); (42963, 42963); (42965, 42969); (42994, 43009); (43011, 43013);
   (43015, 43018); (43020, 43042); (43056, 43061); (43072, 43123); (43138, 43187);
   (43216, 43225); (43250, 43255); (43259, 43259); (43261, 43262); (43264, 43301);
   (43312, 43334); (43360, 43388); (43396, 43442); (43471, 43481); (43488, 43492);
   (43494, 43518); (43520, 43560); (43584, 43586); (43588, 43595); (43600, 43609);
   (43616, 43638); (43642, 43642); (43646, 43695); (43697, 43697); (43701, 43702);
   (43705, 43709); (43712, 43712); (43714, 43714); (43739, 43741); (43744, 43754);
   (43762, 43764); (43777, 43782); (43785, 43790); (43793, 43798); (43808, 43814);
   (43816, 43822); (43824, 43866); (43868, 43881); (43888, 44002); (44016, 44025);
   (44032, 55203); (55216, 55238); (55243, 55291); (63744, 64109); (64112, 64217);
   (64256, 64262); (64275, 64279); (64285, 64285); (64287, 64296); (64298, 64310);
   (64312, 64316); (64318, 64318); (64320, 64321); (64323, 64324); (64326, 64433);
   (64467, 64829); (64848, 64911); (64914, 64967); (65008, 65019); (65136, 65140);
   (65142, 65276); (65296, 65305); (65313, 65338); (65345, 65370); (65382, 65470);
   (65474, 65479); (65482, 65487); (65490, 65495); (65498, 65500); (65536, 65547);
   (65549, 65574); (65576, 65594); (65596, 65597); (65599, 65613); (65616, 65629);
   (65664, 65786); (65799, 65843); (65856, 65912); (65930, 65931); (66176, 66204);
   (66208, 66256); (66273, 66299); (66304, 66339); (66349, 66378); (66384, 66421);
   (66432, 66461); (66464, 66499); (66504, 66511); (66513, 66517); (66560, 66717);
   (66720, 66729); (66736, 66771); (66776, 66811); (66816, 66855); (66864, 66915);
   (66928, 66938); (66940, 66954); (66956, 66962); (66964, 66965); (66967, 66977);
   (66979, 66993); (66995, 67001); (67003, 67004); (67072, 67382); (67392, 67413);
   (67424, 67431); (67456, 67461); (67463, 67504); (67506, 67514); (67584, 67589);
   (67592, 67592); (67594, 67637); (67639, 67640); (67644, 67644); (67647, 67669);
   (67672, 67702); (67705, 67742); (67751, 67759); (67808, 67826); (67828, 67829);
   (67835, 67867); (67872, 67897); (67968, 68023); (68028, 68047); (68050, 68096);
   (68112, 68115); (68117, 68119); (68121, 68149); (68160, 68168); (68192, 68222);
   (68224, 68255); (68288, 68295); (68297, 68324); (68331, 68335); (68352, 68405);
   (68416, 68437); (68440, 68466); (68472, 68497); (68521, 68527); (68608, 68680);
   (68736, 68786); (68800, 68850); (68858, 68899); (68912, 68921); (69216, 69246);
   (69248, 69289); (69296, 69297); (69376, 69415); (69424, 69445); (69457, 69460);
   (69488, 69505); (69552, 69579); (69600, 69622); (69635, 69687); (69714, 69743);
   (69745, 69746); (69749, 69749); (69763, 69807); (69840, 69864); (69872, 69881);
   (69891, 69926); (69942, 69951); (69956, 69956); (69959, 69959); (69968, 70002);
   (70006, 70006); (70019, 70066); (70081, 70084); (70096, 70106); (70108, 70108);
   (70113, 70132); (70144, 70161); (70163, 70187); (70272, 70278); (70280, 70280);
   (70282, 70285); (70287, 70301); (70303, 70312); (70320, 70366); (70384, 70393);
   (70405, 70412); (70415, 70416); (70419, 70440); (70442, 70448); (70450, 70451);
   (70453, 70457); (70461, 70461); (70480, 70480); (70493, 70497); (70656, 70708);
   (70727, 70730); (70736, 70745); (70751, 70753); (70784, 70831); (70852, 70853);
   (70855, 70855); (70864, 70873); (71040, 71086); (71128, 71131); (71168, 71215);
   (71236, 71236); (71248, 71257); (71296, 71338); (71352, 71352); (71360, 71369);
   (71424, 71450); (71472, 71483); (71488, 71494); (71680, 71723); (71840, 71922);
   (71935, 71942); (71945, 71945); (71948, 71955); (71957, 71958); (71960, 71983);
   (71999, 71999); (72001, 72001); (72016, 72025); (72096, 72103); (72106, 72144);
   (72161, 72161); (72163, 72163); (72192, 72192); (72203, 72242); (72250, 72250);
   (72272, 72272); (72284, 72329); (72349, 72349); (72368, 72440); (72704, 72712);
   (72714, 72750); (72768, 72768); (72784, 72812); (72818, 72847); (72960, 72966);
   (72968, 72969); (72971, 73008); (73030, 73030); (73040, 73049); (73056, 73061);
   (73063, 73064); (73066, 73097); (73112, 73112); (73120, 73129); (73440, 73458);
   (73648, 73648); (73664, 73684); (73728, 74649); (74752, 74862); (74880, 75075);
   (77712, 77808); (77824, 78894); (82944, 83526); (92160, 92728); (92736, 92766);
   (92768, 92777); (92784, 92862); (92864, 92873); (92880, 92909); (92928, 92975);
   (92992, 92995); (93008, 93017); (93019, 93025); (93027, 93047); (93053, 93071);
   (93760, 93846); (93952, 94026); (94032, 94032); (94099, 94111); (94176, 94177);
   (94179, 94179); (94208, 100343); (100352, 101589); (101632, 101640);
   (110576, 110579); (110581, 110587); (110589, 110590); (110592, 110882);
   (110928, 110930); (110948, 110951); (110960, 111355); (113664, 113770);
   (113776, 113788); (113792, 113800); (113808, 113817); (119520, 119539);
   (119648, 119672); (119808, 119892); (119894, 119964); (119966, 119967);
   (119970, 119970); (119973, 119974); (119977, 119980); (119982, 119993);
   (119995, 119995); (119997, 120003); (120005, 120069); (120071, 120074);
   (120077, 120084); (120086, 120092); (120094, 120121); (120123, 120126);
   (120128, 120132); (120134, 120134); (120138, 120144); (120146, 120485);
   (120488, 120512); (120514, 120538); (120540, 120570); (120572, 120596);
   (120598, 120628); (120630, 120654); (120656, 120686); (120688, 120712);
   (120714, 120744); (120746, 120770); (120772, 120779); (120782, 120831);
   (122624, 122654); (123136, 123180); (123191, 123197); (123200, 123209);
   (123214, 123214); (123536, 123565); (123584, 123627); (123632, 123641);
   (124896, 124902); (124904, 124907); (124909, 124910); (124912, 124926);
   (124928, 125124); (125127, 125135); (125184, 125251); (125259, 125259);
   (125264, 125273); (126065, 126123); (126125, 126127); (126129, 126132);
   (126209, 126253); (126255, 126269); (126464, 126467); (126469, 126495);
   (126497, 126498); (126500, 126500); (126503, 126503); (126505, 126514);
   (126516, 126519); (126521, 126521); (126523, 126523); (126530, 126530);
   (126535, 126535); (126537, 126537); (126539, 126539); (126541, 126543);
   (126545, 126546); (126548, 126548); (126551, 126551); (126553, 126553);
   (126555, 126555); (126557, 126557); (126559, 126559); (126561, 126562);
   (126564, 126564); (126567, 126570); (126572, 126578); (126580, 126583);
   (126585, 126588); (126590, 126590); (126592, 126601); (126603, 126619);
   (126625, 126627); (126629, 126633); (126635, 126651); (127232, 127244);
   (130032, 130041); (131072, 173791); (173824, 177976); (177984, 178205);
   (178208, 183969); (183984, 191456); (194560, 195101); (196608, 201546)]%N.

Definition is_word_cp (cp : N) : bool :=
  existsb (λ r : N * N, in_rng r.1 r.2 cp) word_ranges.

(** The number of bytes of the blank at the head of [s], 0 when [s] does
    not begin with a blank. *)
Definition blank_len (s : str) : nat :=
  match decode1 s with
  | Some (cp, n) => if is_space_cp cp then n else 0%nat
  | None => 0%nat
  end.

(** [s] without the blanks it begins with; [pend] counts the bytes of the
    current blank that are still to be dropped. *)
Fixpoint drop_blanks (s : str) (pend : nat) {struct s} : str :=
  match pend with
  | S m =>
      match s with
      | _ :: s' => drop_blanks s' m
      | [] => []
      end
  | O =>
      match blank_len s with
      | S m =>
          match s with
          | _ :: s' => drop_blanks s' m
          | [] => []
          end
      | O => s
      end
  end.

(** [s.lstrip()]. *)
Definition lstrip (s : str) : str := drop_blanks s 0.

(** Is [s] made of blanks only? *)
Definition is_blank_run (s : str) : bool :=
  match drop_blanks s 0 with
  | [] => true
  | _ :: _ => false
  end.

(** [s.rstrip()]: [s] up to the place from which only blanks follow. *)
Fixpoint rstrip (s : str) : str :=
  match s with
  | [] => []
  | c :: s' => if is_blank_run s then [] else c :: rstrip s'
  end.

(** [s.strip()]. *)
Definition str_strip (s : str) : str := rstrip (lstrip s).

(** [s.replace(old, new)] for a non-empty [old]: the occurrences are taken
    from left to right and do not overlap; [skip] counts the characters of
    the occurrence under replacement that are still to be dropped. *)
Fixpoint str_replace_go (old new : str) (skip : nat) (s : str) : str :=
  match s with
  | [] => []
  | c :: s' =>
      match skip with
      | S k => str_replace_go old new k s'
      | O =>
          if starts_with old s
          then new ++ str_replace_go old new (Nat.pred (length old)) s'
          else c :: str_replace_go old new 0 s'
      end
  end.

Definition str_replace (old new s : str) : str := str_replace_go old new 0 s.

(** [str(n)] for a non-negative integer. *)
Definition show_nat (n : nat) : str := lit (NilEmpty.string_of_uint (Nat.to_uint n)).

(** Net brace count of one line: [line.count('{') - line.count('}')]. *)
Definition brace_delta (line : str) : Z :=
  Z.of_nat (str_count "{" line) - Z.of_nat (str_count "}" line).

(** ** Regular expressions

    The patterns of the scripts are sequences of character classes, each
    taken once or under a greedy [*] or [+], with capture groups that do not
    nest and the anchor [$] of [re.MULTILINE].  Matching tries the longest
    repetition first and backtracks to shorter ones, as [re] does.  A class
    [Cls] is read off one byte: a literal, an ASCII range, or a negated set
    of ASCII characters, of which the bytes of any other character are
    members.  A class [Uni] is read off one decoded character: [\s], [\w]. *)

Inductive quant := One | Star | Plus.

Inductive item :=
  | Cls (p : ascii → bool) (q : quant)
  | Uni (p : N → bool) (q : quant)
  | Eol
  | GOpen
  | GClose.

Abbreviation regex := (list item).

(** The state of one matching attempt: the number of bytes consumed, the
    group under construction (last byte first) and the groups that are
    closed. *)
Record mstate := MState {
  consumed : nat;
  open_grp : option str;
  groups : list str
}.

Definition mstate0 : mstate := MState 0 None [].

Definition eat (c : ascii) (st : mstate) : mstate :=
  MState (S (consumed st)) (cons c <$> open_grp st) (groups st).

Definition grp_open (st : mstate) : mstate :=
  MState (consumed st) (Some []) (groups st).

Definition grp_close (st : mstate) : mstate :=
  MState (consumed st) None (groups st ++ [rev (default [] (open_grp st))]).

Definition eat_bytes (bs : str) (st : mstate) : mstate :=
  foldl (λ st c, eat c st) st bs.

(** Greedy repetition of the class [p], followed by the continuation [k]. *)
Fixpoint star (p : ascii → bool) (k : str → mstate → option mstate)
    (s : str) (st : mstate) : option mstate :=
  match s with
  | c :: s' =>
      if p c then
        match star p k s' (eat c st) with
        | Some r => Some r
        | None => k s st
        end
      else k s st
  | [] => k s st
  end.

(** The same for a class of decoded characters; [pend] counts the bytes of
    the current character that are still to be consumed. *)
Fixpoint ustar (p : N → bool) (k : str → mstate → option mstate)
    (s : str) (st : mstate) (pend : nat) {struct s} : option mstate :=
  match pend with
  | S m =>
      match s with
      | c :: s' => ustar p k s' (eat c st) m
      | [] => None
      end
  | O =>
      match decode1 s with
      | Some (cp, S m) =>
          if p cp then
            match s with
            | c :: s' =>
                match ustar p k s' (eat c st) m with
                | Some r => Some r
                | None => k s st
                end
            | [] => k s st
            end
          else k s st
      | _ => k s st
      end
  end.

Fixpoint match_items (r : regex) (s : str) (st : mstate) {struct r} : option mstate :=
  match r with
  | [] => Some st
  | Cls p One :: r' =>
      match s with
      | c :: s' => if p c then match_items r' s' (eat c st) else None
      | [] => None
      end
  | Cls p Star :: r' => star p (match_items r') s st
  | Cls p Plus :: r' =>
      match s with
      | c :: s' => if p c then star p (match_items r') s' (eat c st) else None
      | [] => None
      end
  | Uni p One :: r' =>
      match decode1 s with
      | Some (cp, n) =>
          if p cp then match_items r' (drop n s) (eat_bytes (take n s) st) else None
      | None => None
      end
  | Uni p Star :: r' => ustar p (match_items r') s st 0
  | Uni p Plus :: r' =>
      match decode1 s with
      | Some (cp, n) =>
          if p cp
          then ustar p (match_items r') (drop n s) (eat_bytes (take n s) st) 0
          else None
      | None => None
      end
  | Eol :: r' =>
      match s with
      | [] => match_items r' s st
      | c :: _ => if Ascii.eqb c newline then match_items r' s st else None
      end
  | GOpen :: r' => match_items r' s (grp_open st)
  | GClose :: r' => match_items r' s (grp_close st)
  end.

(** A match of [r] that begins at the head of [s]: its length and groups. *)
Definition match_at (r : regex) (s : str) : option (nat * list str) :=
  match match_items r s mstate0 with
  | Some st => Some (consumed st, groups st)
  | None => None
  end.

(** [re.match(r, s)] taken as a truth value. *)
Definition re_match (r : regex) (s : str) : bool :=
  match match_at r s with Some _ => true | None => false end.

(** Replacement templates: literal text and back-references [\n]. *)
Inductive piece := TLit (s : str) | TGroup (n : nat).

Abbreviation template := (list piece).

Definition expand (t : template) (g : list str) : str :=
  concat (map (fun p => match p with
                        | TLit s => s
                        | TGroup n => default [] (g !! Nat.pred n)
                        end) t).

(** [re.sub(r, t, s)]: the text is scanned from left to right; a match is
    replaced by the expansion of [t] and the scan resumes after it; a
    character at which no match begins is copied.  [skip] counts the
    characters of the current match still to be dropped.  An empty match
    puts the expansion in front of the character it stands at. *)
Fixpoint re_sub_go (r : regex) (t : template) (skip : nat) (s : str) {struct s} : str :=
  match skip with
  | S k =>
      match s with
      | [] => []
      | _ :: s' => re_sub_go r t k s'
      end
  | O =>
      match match_at r s with
      | Some (n, g) =>
          expand t g ++
          match s with
          | [] => []
          | c :: s' =>
              match n with
              | O => c :: re_sub_go r t 0 s'
              | S k => re_sub_go r t k s'
              end
          end
      | None =>
          match s with
          | [] => []
          | c :: s' => c :: re_sub_go r t 0 s'
          end
      end
  end.

Definition re_sub (r : regex) (t : template) (s : str) : str := re_sub_go r t 0 s.

(** [re.search(r, s)] taken as a truth value: does a match begin anywhere
    in [s], its end included? *)
Fixpoint re_search (r : regex) (s : str) : bool :=
  match match_at r s with
  | Some _ => true
  | None =>
      match s with
      | [] => false
      | _ :: s' => re_search r s'
      end
  end.

(** The least number of characters that a match of [r] consumes. *)
Fixpoint min_len (r : regex) : nat :=
  match r with
  | [] => 0
  | Cls _ Star :: r' => min_len r'
  | Cls _ _ :: r' => S (min_len r')
  | Uni _ Star :: r' => min_len r'
  | Uni _ _ :: r' => S (min_len r')
  | _ :: r' => min_len r'
  end.

(** Character classes and pattern fragments. *)
Definition ch (c : ascii) : item := Cls (Ascii.eqb c) One.
Definition lits (s : string) : regex := map ch (lit s).
Definition one_of (cs : str) (a : ascii) : bool := existsb (Ascii.eqb a) cs.
Definition none_of (cs : str) (a : ascii) : bool := negb (one_of cs a).
Definition in_range (lo hi : ascii) (a : ascii) : bool :=
  (nat_of_ascii lo <=? nat_of_ascii a)%nat && (nat_of_ascii a <=? nat_of_ascii hi)%nat.
(** [[a-zA-Z_]] *)
Definition is_ident_start (a : ascii) : bool :=
  in_range "a" "z" a || in_range "A" "Z" a || Ascii.eqb a "_".
(** [[a-zA-Z0-9_]] *)
Definition is_word (a : ascii) : bool :=
  is_ident_start a || in_range "0" "9" a.
(** [\s*] and [\s+] *)
Definition ws : item := Uni is_space_cp Star.
Definition ws1 : item := Uni is_space_cp Plus.
(** [\w+] *)
Definition word1 : item := Uni is_word_cp Plus.

(** ** Files and standard output

    A script runs in a world made of the files it can open and of the lines
    it has printed.  [open(p, 'r')] on a missing file raises.  [read_file]
    gives the stored text as it is, for a store that holds the text of a
    file as the script reads it; [read_text] takes the stored bytes through
    the decoding and the translation of line ends that reading in text
    mode performs, and raises where the decoding does.  The store holds
    regular files that may be opened: directories and permissions are not
    modelled. *)

Inductive exn :=
  | FileNotFoundError (path : string)
  | IndexError
  | UnicodeDecodeError (path : string).

Record world := World {
  files : gmap string str;
  stdout : list str
}.

Inductive result (A : Type) :=
  | Ok (a : A) (w : world)
  | Raise (e : exn) (w : world).
Arguments Ok {A} a w.
Arguments Raise {A} e w.

Definition M (A : Type) : Type := world → result A.

#[global] Instance M_ret : MRet M := λ A a w, Ok a w.
#[global] Instance M_bind : MBind M := λ A B f m w,
  match m w with
  | Ok a w' => f a w'
  | Raise e w' => Raise e w'
  end.

Definition path_exists (p : string) : M bool :=
  λ w, Ok (bool_decide (is_Some (files w !! p))) w.

Definition read_file (p : string) : M str :=
  λ w, match files w !! p with
       | Some c => Ok c w
       | None => Raise (FileNotFoundError p) w
       end.

(** Are the bytes [s], after the [pend] bytes that end the current
    character, well-formed UTF-8? *)
Fixpoint utf8_valid_go (s : str) (pend : nat) {struct s} : bool :=
  match pend with
  | S m =>
      match s with
      | _ :: s' => utf8_valid_go s' m
      | [] => false
      end
  | O =>
      match s with
      | [] => true
      | _ :: s' =>
          match decode1 s with
          | Some (_, S m) => utf8_valid_go s' m
          | _ => false
          end
      end
  end.

Definition utf8_valid (s : str) : bool := utf8_valid_go s 0.

Definition carriage_return : ascii := ascii_of_nat 13.

(** The translation of line ends on reading in text mode: a carriage
    return, with the line feed that may follow it, becomes one line feed. *)
Fixpoint universal_newlines (s : str) : str :=
  match s with
  | [] => []
  | c :: s' =>
      if Ascii.eqb c carriage_return then
        match s' with
        | c' :: s'' =>
            if Ascii.eqb c' newline then newline :: universal_newlines s''
            else newline :: universal_newlines s'
        | [] => [newline]
        end
      else c :: universal_newlines s'
  end.

(** [open(p, 'r', encoding='utf-8').read()]: bytes that are not UTF-8
    raise. *)
Definition read_text (p : string) : M str :=
  λ w, match files w !! p with
       | Some bytes =>
           if utf8_valid bytes then Ok (universal_newlines bytes) w
           else Raise (UnicodeDecodeError p) w
       | None => Raise (FileNotFoundError p) w
       end.

(** [f.write(c)] on a file opened with ['w']; line feeds are written as
    they are, as on POSIX. *)
Definition write_file (p : string) (c : str) : M unit :=
  λ w, Ok tt (World (<[p := c]> (files w)) (stdout w)).

Definition print (m : str) : M unit :=
  λ w, Ok tt (World (files w) (stdout w ++ [m])).

(** ** [clean_test_utils.py] *)

Module Clean.

Definition file_path : string := "src/testing/test-utils.ts".

Definition marker : str :=
  lit "const responses: Record<string, (args: any) => any> = {".

Definition is_marker (line : str) : bool := str_in marker line.

(** The [for i, line in enumerate(lines)] loop of lines 18-27, entered at
    index [i] with the current values of [start_line] and [brace_count];
    it yields [(start_line, end_line)]. *)
Fixpoint scan_loop (rest : list str) (i : nat)
    (start_line : option nat) (brace_count : Z) : option nat * option nat :=
  match rest with
  | [] => (start_line, None)
  | line :: rest' =>
      if is_marker line then scan_loop rest' (S i) (Some i) 1
      else match start_line with
           | Some _ =>
               let brace_count := brace_count + brace_delta line in
               if brace_count =? 0 then (start_line, Some i)
               else scan_loop rest' (S i) start_line brace_count
           | None => scan_loop rest' (S i) start_line brace_count
           end
  end.

(** Lines 14-27: [start_line = None], [end_line = None], [brace_count = 0],
    then the loop. *)
Definition find_responses (lines : list str) : option nat * option nat :=
  scan_loop lines 0 None 0.

(** Lines 37-38 and the list concatenation of line 127:
    [lines[:start_line] + new_lines + lines[end_line + 1:]]. *)
Definition replace_span (lines : list str) (start_line end_line : nat)
    (new_lines : list str) : list str :=
  (take start_line lines ++ new_lines) ++ drop (end_line + 1) lines.

(** Lines 41-124. *)
Definition new_responses : list str :=
  [ lit "  const responses: Record<string, (args: any) => any> = {";
    lit "    'agent.property.analysis': (args) => ({";
    lit "      content: [";
    lit "        {";
    lit "          type: 'text',";
    lit "          text: `# Property Analysis for ${args.context?.domain || 'domain'}";
    lit "";
    lit "## Recommended Product";
    lit "**Ion Standard** (prd_Fresca) - Best for general web acceleration";
    lit "";
    lit "## Configuration Recommendations";
    lit "- Origin server: ${args.context?.origin || 'origin.example.com'}";
    lit "- Caching: Standard web content";
    lit "- Compression: Enabled";
    lit "- HTTP/2 optimization: Enabled";
    lit "";
    lit "## Next Steps";
    lit "1. Create property with Ion Standard product";
    lit "2. Configure origin and hostnames";
    lit "3. Test on staging network";
    lit "4. Activate to production`,";
    lit "        },";
    lit "      ],";
    lit "    }),";
    lit "";
    lit "    'property.create': (args) => {";
    lit "      // Handle retry with corrected name first";
    lit "      if (args.propertyName === 'invalid-domain.com') {";
    lit "        return {";
    lit "          content: [";
    lit "            {";
    lit "              type: 'text',";
    lit "              text: `✅ **Property Created Successfully!**";
    lit "";
    lit "## Property Details";
    lit "- **Name:** ${args.propertyName}";
    lit "- **Property ID:** prp_124";
    lit "- **Product:** Ion Standard";
    lit "- **Contract:** Contract ${args.contractId}";
    lit "- **Group:** Group ${args.groupId}";
    lit "- **Status:** 🔵 NEW (Not yet activated)";
    lit "";
    lit "Successfully created property with corrected name.`,";
    lit "            },";
    lit "          ],";
    lit "        };";
    lit "      }";
    lit "      // Handle validation errors for invalid names";
    lit "      if (args.propertyName?.includes(' ') || args.propertyName?.includes('!@#')) {";
    lit "        return {";
    lit "          content: [";
    lit "            {";
    lit "              type: 'text',";
    lit "              text: `❌ Cannot create property - validation errors:";
    lit "";
    lit "- Property name contains invalid characters";
    lit "";
    lit "Property name can only contain letters, numbers, hyphens, dots, and underscores";
    lit "";
    lit "**Suggestion:** Try using a valid name instead, such as " ++ [dquote] ++ lit "${args.propertyName?.replace(/[^a-zA-Z0-9.-_]/g, '-')}" ++ [dquote] ++ lit "`,";
    lit "            },";
    lit "          ],";
    lit "        };";
    lit "      }";
    lit "      return {";
    lit "        content: [";
    lit "          {";
    lit "            type: 'text',";
    lit "            text: `✅ **Property Created Successfully!**";
    lit "";
    lit "## Property Details";
    lit "- **Name:** ${args.propertyName}";
    lit "- **Property ID:** prp_123";
    lit "- **Product:** Ion Standard";
    lit "- **Contract:** Contract ${args.contractId}";
    lit "- **Group:** Group ${args.groupId}";
    lit "- **Status:** 🔵 NEW (Not yet activated)`,";
    lit "          },";
    lit "        ],";
    lit "      };";
    lit "    },";
    lit "  };" ].

(** The separator of line 127, ['\\n']: a backslash followed by [n]. *)
Definition join_separator : str := [backslash; "n"%char].

Definition could_not_find : str := lit "Could not find responses object".

Definition fix_test_utils_comprehensive : M unit :=
  content ← read_file file_path;
  let lines := str_split newline content in
  match find_responses lines with
  | (Some start_line, Some end_line) =>
      print (lit "Fixing responses section from line " ++ show_nat start_line
             ++ lit " to " ++ show_nat end_line);;
      let fixed_content :=
        str_join join_separator (replace_span lines start_line end_line new_responses) in
      write_file file_path fixed_content;;
      print (lit "Fixed test-utils.ts responses section")
  | _ => print could_not_find
  end.

End Clean.

(** ** [fix_test_utils.py]: the loop that closes arrow-function blocks *)

Module FixUtils.

(** Line 27: ['[^']+'\s*:\s*\([^)]*\)\s*=>\s*\(\{] after optional blanks.
    The leading [^] holds where [re.match] begins. *)
Definition opener : regex :=
  [ws; ch "'"; Cls (none_of (lit "'")) Plus; ch "'"; ws; ch ":"; ws;
   ch "("; Cls (none_of (lit ")")) Star; ch ")"; ws] ++ lits "=>" ++ [ws] ++ lits "({".

(** The variables of the loop.  [in_block] tells whether control is in the
    inner [while]; [examined] is a ghost field that records the indices at
    which [lines[i]] was read. *)
Record state := State {
  i : nat;
  fixed_lines : list str;
  bracket_count : Z;
  paren_count : Z;
  in_block : bool;
  examined : list nat
}.

Inductive outcome :=
  | Next (st : state)
  | Done
  | Error (e : exn).

(** Lines 19-21; the two counters are unbound until a block is entered. *)
Definition init : state := State 0 [] 0 0 false [].

(** One test of a [while] condition and, when it holds, one pass through
    the body. *)
Definition step (lines : list str) (st : state) : outcome :=
  if in_block st then
    if (i st <? length lines)%nat
       && ((bracket_count st >? 0) || (paren_count st >? 0)) then
      match lines !! i st with
      | None => Error IndexError
      | Some current_line =>
          let bracket_count := bracket_count st + brace_delta current_line in
          if (bracket_count =? 0)
             && bool_decide (str_strip current_line = lit "},") then
            Next (State (S (i st))
                        (fixed_lines st ++ [str_replace (lit "},") (lit "}),") current_line])
                        bracket_count (paren_count st) false
                        (examined st ++ [i st]))
          else
            Next (State (S (i st)) (fixed_lines st ++ [current_line])
                        bracket_count (paren_count st) true
                        (examined st ++ [i st]))
      end
    else
      Next (State (i st) (fixed_lines st) (bracket_count st) (paren_count st)
                  false (examined st))
  else
    if (i st <? length lines)%nat then
      match lines !! i st with
      | None => Error IndexError
      | Some line =>
          if re_match opener line then
            Next (State (S (i st)) (fixed_lines st ++ [line]) 1 1 true
                        (examined st ++ [i st]))
          else
            Next (State (S (i st)) (fixed_lines st ++ [line])
                        (bracket_count st) (paren_count st) false
                        (examined st ++ [i st]))
      end
    else Done.

Inductive final :=
  | Finished (st : state)
  | Raised (e : exn).

(** The loop, run for at most [fuel] steps; [None] when the fuel is spent. *)
Fixpoint run (fuel : nat) (lines : list str) (st : state) : option final :=
  match fuel with
  | O => None
  | S fuel' =>
      match step lines st with
      | Next st' => run fuel' lines st'
      | Done => Some (Finished st)
      | Error e => Some (Raised e)
      end
  end.

(** The inner loop alone, from a state inside a block: it yields the index
    of the line at which the closing branch of lines 42-46 was taken and
    the state after the [break]. *)
Fixpoint scan_block (fuel : nat) (lines : list str) (st : state) : option (nat * state) :=
  match fuel with
  | O => None
  | S fuel' =>
      if in_block st then
        match step lines st with
        | Next st' =>
            if in_block st' then scan_block fuel' lines st'
            else if (i st <? i st')%nat then Some (i st, st') else None
        | _ => None
        end
      else None
  end.

End FixUtils.

(** ** [fix_remaining_syntax.py] *)

Module Remaining.

(** Line 18: [JSON\.stringify\(([^)]+),\s*$] *)
Definition json_stringify : regex * template :=
  (lits "JSON.stringify(" ++ [GOpen; Cls (none_of (lit ")")) Plus; GClose; ch ","; ws; Eol],
   [TLit (lit "JSON.stringify("); TGroup 1; TLit (lit "),")]).

(** The common prefix of lines 21 and 24:
    [\s+[a-zA-Z_][a-zA-Z0-9_]*:\s*\([^)]*\)\s*=>\s*] *)
Definition arrow_head : regex :=
  [ws1; Cls is_ident_start One; Cls is_word Star; ch ":"; ws;
   ch "("; Cls (none_of (lit ")")) Star; ch ")"; ws] ++ lits "=>" ++ [ws].

(** Line 21: [(\s+...=>\s*\{[^}]*\}),\s*$] *)
Definition object_literal_return : regex * template :=
  ([GOpen] ++ arrow_head ++
   [ch "{"; Cls (none_of (lit "}")) Star; ch "}"; GClose; ch ","; ws; Eol],
   [TGroup 1; TLit (lit "),")]).

(** Line 24: [(\s+...=>\s*\([^)]*\{[^}]*\}),\s*$] *)
Definition function_definition : regex * template :=
  ([GOpen] ++ arrow_head ++
   [ch "("; Cls (none_of (lit ")")) Star; ch "{"; Cls (none_of (lit "}")) Star;
    ch "}"; GClose; ch ","; ws; Eol],
   [TGroup 1; TLit (lit ")),")]).

(** Line 27: [logger\._error(Q)\s*,\s*\{\s*_error\.message\s*\}], where [Q]
    is the class of the two quote characters. *)
Definition logger_statement : regex * template :=
  (lits "logger._error" ++
   [GOpen; Cls (one_of [dquote; "'"%char]) One; GClose; ws; ch ","; ws; ch "{"; ws]
   ++ lits "_error.message" ++ [ws; ch "}"],
   [TLit (lit "logger.error(`Error: ${_error.message}`)")]).

(** Line 30: [(\w+:\s*[^,}\n]+)\s*\n\s*(\w+:)] *)
Definition missing_comma : regex * template :=
  ([GOpen; word1; ch ":"; ws;
    Cls (none_of ("," :: "}" :: newline :: [])%char) Plus; GClose;
    ws; ch newline; ws; GOpen; word1; ch ":"; GClose],
   [TGroup 1; TLit (lit "," ++ [newline] ++ lit "    "); TGroup 2]).

(** Line 33: [catch\s*\(\s*error\s*\)] *)
Definition catch_block : regex * template :=
  (lits "catch" ++ [ws; ch "("; ws] ++ lits "error" ++ [ws; ch ")"],
   [TLit (lit "catch (_error)")]).

(** Line 36: the group [\w+:\s*\([^)]*\)\s*=>\s*\([^}]*], then [\},\s*$]. *)
Definition arrow_return : regex * template :=
  ([GOpen; word1; ch ":"; ws; ch "("; Cls (none_of (lit ")")) Star;
    ch ")"; ws] ++ lits "=>" ++
   [ws; ch "("; Cls (none_of (lit "}")) Star; GClose; ch "}"; ch ","; ws; Eol],
   [TGroup 1; TLit (lit "}),")]).

(** The substitutions of lines 18-36, in the order in which they run. *)
Definition rules : list (regex * template) :=
  [json_stringify; object_literal_return; function_definition;
   logger_statement; missing_comma; catch_block; arrow_return].

(** One rule after the other, each on the text the previous one left. *)
Definition apply_rules (rs : list (regex * template)) (text : str) : str :=
  foldl (fun content rule => re_sub rule.1 rule.2 content) text rs.

Definition msg_missing (file_path : string) : str :=
  lit "File " ++ lit file_path ++ lit " does not exist".
Definition msg_fixed (file_path : string) : str :=
  lit "Fixed syntax errors in " ++ lit file_path.
Definition msg_clean (file_path : string) : str :=
  lit "No syntax errors found in " ++ lit file_path.

Definition fix_file_syntax_errors (file_path : string) : M bool :=
  found ← path_exists file_path;
  if negb found then
    print (msg_missing file_path);; mret false
  else
    content ← read_text file_path;
    let original_content := content in
    let content := apply_rules rules content in
    if negb (bool_decide (content = original_content)) then
      write_file file_path content;;
      print (msg_fixed file_path);;
      mret true
    else
      print (msg_clean file_path);; mret false.

Definition files_to_fix : list string :=
  ["src/testing/test-utils.ts";
   "src/tools/analysis/cx-impact-analyzer.ts";
   "src/tools/analysis/fix-strategy.ts";
   "src/tools/analysis/intelligent-bug-analyzer-broken.ts";
   "src/utils/response-parsing.ts"]%string.

(** The [for] loop of lines 57-59. *)
Fixpoint main_loop (paths : list string) (fixed_count : nat) : M nat :=
  match paths with
  | [] => mret fixed_count
  | file_path :: paths' =>
      fix_file_syntax_errors file_path ≫= λ fixed : bool,
      main_loop paths' (if fixed then S fixed_count else fixed_count)
  end.

Definition msg_summary (fixed_count : nat) : str :=
  [newline] ++ lit "Fixed syntax errors in " ++ show_nat fixed_count ++ lit " files".

Definition main : M unit :=
  fixed_count ← main_loop files_to_fix 0;
  print (msg_summary fixed_count).

End Remaining.

(** ** Notions used in the statements *)

(** Sum of the net brace counts of a block of lines. *)
Definition balance (ls : list str) : Z :=
  foldr (fun l acc => brace_delta l + acc) 0 ls.

(** Running depth at line [j], for a scan that starts at line [s] with
    depth 1 and counts the lines [s+1 .. j]. *)
Definition depth (lines : list str) (s j : nat) : Z :=
  1 + balance (take (j - s) (drop (S s) lines)).

(** The same for parentheses. *)
Definition paren_delta (line : str) : Z :=
  Z.of_nat (str_count "(" line) - Z.of_nat (str_count ")" line).

Definition paren_depth (lines : list str) (s j : nat) : Z :=
  1 + foldr (fun l acc => paren_delta l + acc) 0 (take (j - s) (drop (S s) lines)).

Definition marker_at (lines : list str) (k : nat) : Prop :=
  ∃ l, lines !! k = Some l ∧ Clean.is_marker l = true.

(** [e] is the first index after [s] at which the running depth is 0. *)
Definition first_zero (lines : list str) (s e : nat) : Prop :=
  (s < e < length lines)%nat ∧ depth lines s e = 0 ∧
  ∀ j, (s < j < e)%nat → depth lines s j ≠ 0.

(** What the scan of [clean_test_utils.py] knows after the first [i] lines
    when it has not stopped. *)
Definition scan_inv (lines : list str) (i : nat)
    (start_line : option nat) (brace_count : Z) : Prop :=
  match start_line with
  | None => ∀ k, (k < i)%nat → ¬ marker_at lines k
  | Some s =>
      (s < i)%nat ∧ marker_at lines s ∧
      (∀ k, (s < k < i)%nat → ¬ marker_at lines k) ∧
      brace_count = depth lines s (i - 1) ∧
      (∀ j, (s < j < i)%nat → depth lines s j ≠ 0)
  end.

(** What that scan delivers. *)
Definition scan_post (lines : list str) (r : option nat * option nat) : Prop :=
  match r.1 with
  | None => (∀ k, ¬ marker_at lines k) ∧ r.2 = None
  | Some s =>
      marker_at lines s ∧
      (∀ e, r.2 = Some e ↔ first_zero lines s e) ∧
      (∀ k, marker_at lines k → (k ≤ s)%nat ∨ ∃ e, r.2 = Some e ∧ (e < k)%nat)
  end.

(** [m], followed by [rest], is an occurrence of the pattern [r]: the match
    that begins at the head of [m ++ rest] is [m]. *)
Definition occurrence (r : regex) (m rest : str) : Prop :=
  m ≠ [] ∧ ∃ g, match_at r (m ++ rest) = Some (length m, g).

(** No match of [r] begins inside the stretch [p] of the text [p ++ rest]. *)
Fixpoint gap_free (r : regex) (p rest : str) : bool :=
  match p with
  | [] => true
  | _ :: p' =>
      match match_at r (p ++ rest) with
      | Some _ => false
      | None => gap_free r p' rest
      end
  end.

(** In a block whose brace count was [bc] before line [k], the closing
    branch of [fix_test_utils.py] would be taken at line [j]. *)
Definition closes_at (lines : list str) (k : nat) (bc : Z) (j : nat) : Prop :=
  (k ≤ j)%nat ∧
  ∃ l, lines !! j = Some l ∧
       bc + balance (take (S j - k) (drop k lines)) = 0 ∧
       str_strip l = lit "},".

(** What the loop of [fix_test_utils.py] keeps true between two steps. *)
Definition loop_inv (lines : list str) (st : FixUtils.state) : Prop :=
  (FixUtils.i st ≤ length lines)%nat ∧
  (FixUtils.in_block st = true → FixUtils.paren_count st = 1) ∧
  FixUtils.examined st = seq 0 (FixUtils.i st) ∧
  length (FixUtils.fixed_lines st) = FixUtils.i st.







(** What a run of the loop of [fix_test_utils.py] does about blocks. *)
Inductive event :=
  | Opened (k : nat)
  | Closed (k : nat) (bracket_count paren_count : Z).

(** The blocks that a run of the loop from the state [st] enters, by the
    index of the line that matches the opening pattern, and the lines at
    which it takes its closing branch, with the two counters there. *)
Fixpoint events (fuel : nat) (lines : list str) (st : FixUtils.state) : list event :=
  match fuel with
  | O => []
  | S fuel' =>
      match FixUtils.step lines st with
      | FixUtils.Next st' =>
          (if negb (FixUtils.in_block st) && FixUtils.in_block st'
           then [Opened (FixUtils.i st)]
           else if FixUtils.in_block st && negb (FixUtils.in_block st')
                   && (FixUtils.i st <? FixUtils.i st')%nat
           then [Closed (FixUtils.i st) (FixUtils.bracket_count st')
                        (FixUtils.paren_count st')]
           else [])
          ++ events fuel' lines st'
      | _ => []
      end
  end.

(** ** Inputs of the examples *)

Definition scenario_lines : list str :=
  [lit "foo: (args) => ({"; lit "  a: 1,"; lit "},"].

(** The same lines with the key in single quotes. *)
Definition quoted_lines : list str :=
  [lit "'foo': (args) => ({"; lit "  a: 1,"; lit "},"].

Definition responses_lines : list str :=
  [lit "// head"; Clean.marker; lit "  x: () => {"; lit "  },"; lit "};"; lit "// tail"].

Definition unterminated_lines : list str :=
  [Clean.marker; lit "  x: () => {"].

(** A block that is opened and never closed. *)
Definition unclosed_lines : list str :=
  [lit "  'k': (args) => ({"; lit "    a: {"; lit "  }"].

Definition clean_world : world :=
  World {[ "a.ts"%string := lit "const x = 1;" ]} [].

Definition unterminated_world : world :=
  World {[ Clean.file_path := str_join [newline] unterminated_lines ]} [].

(** A store with one file in which the pipeline finds work. *)
Definition batch_world : world :=
  World {[ "b.ts"%string := lit "try {} catch (error) {}" ]} [].

(** A store with one of the five files of the driver, in which the
    pipeline finds work. *)
Definition summary_world : world :=
  World {[ "src/utils/response-parsing.ts"%string := lit "try {} catch (error) {}" ]} [].

(** A store whose file has its lines ended by carriage return and line
    feed. *)
Definition crlf_world : world :=
  World {[ "src/testing/test-utils.ts"%string :=
             lit "const x = {" ++ [carriage_return; newline] ++ lit "};" ]} [].


Definition catch_text : str :=
  lit "try { a() } catch (error) { b() } catch(error){} catch( error ) {c}".

(** ** [fix_test_utils.py] as a whole *)

Module Script.

Definition file_path : string := "src/testing/test-utils.ts".

(** Lines 5-58: read the file, run the loop on its lines, write the lines
    joined by line feeds, print.  [None] stands for a loop that has not
    ended within [length lines + 2] steps.  The file is opened without an
    encoding, which is taken to be UTF-8. *)
Definition script (w : world) : option (result unit) :=
  match read_text file_path w with
  | Raise e w' => Some (Raise e w')
  | Ok content w1 =>
      let lines := str_split newline content in
      match FixUtils.run (length lines + 2) lines FixUtils.init with
      | None => None
      | Some (FixUtils.Raised e) => Some (Raise e w1)
      | Some (FixUtils.Finished st) =>
          Some ((write_file file_path (str_join [newline] (FixUtils.fixed_lines st));;
                 print (lit "Fixed test-utils.ts")) w1)
      end
  end.

End Script.

(** ** [fix_test_utils_syntax.py] *)

(** A text given by its lines. *)
Definition text (ls : list string) : str := str_join [newline] (map lit ls).

Module Syntax.

Definition file_path : string := "src/testing/test-utils.ts".

(** Line 13. *)
Definition create_test_server : regex * template :=
  (lits "export function createTestServer(): {" ++ [ws] ++ lits "getServer: () => any;" ++ [ws] ++
   lits "," ++ [ws] ++ lits "callTool: (name: string, args: any) => Promise<any>;" ++ [ws] ++
   lits "}",
   [TLit (text ["export function createTestServer(): {"; "  getServer: () => any;";
      "  callTool: (name: string, args: any) => Promise<any>;"; "}"])]).

(** Line 17. *)
Definition paren_brace : regex * template :=
  (lits ")" ++ [ws] ++ lits "{" ++ [ws],
   [TLit (lit ") {")]).

(** Line 18. *)
Definition brace_paren_comma : regex * template :=
  (lits "}" ++ [ws] ++ lits ")" ++ [ws] ++ lits ",",
   [TLit (lit "}),")]).

(** Line 19. *)
Definition paren_comma : regex * template :=
  (lits ")" ++ [ws] ++ lits "," ++ [ws],
   [TLit (text ["),"; ""])]).

(** Line 22. *)
Definition paren_brace_comma : regex * template :=
  (lits "({" ++ [ws] ++ lits "," ++ [ws],
   [TLit (lit "({")]).

(** Line 23. *)
Definition brace_comma : regex * template :=
  (lits "{" ++ [ws] ++ lits "," ++ [ws],
   [TLit (lit "{")]).

(** Line 24. *)
Definition comma_brace_paren : regex * template :=
  (lits "," ++ [ws] ++ lits "})" ++ [ws] ++ lits ",",
   [TLit (lit "}),")]).

(** Line 25. *)
Definition double_paren : regex * template :=
  (lits "})" ++ [ws] ++ lits ")" ++ [ws] ++ lits ",",
   [TLit (lit "}),")]).

(** Line 30. *)
Definition authentication_error : regex * template :=
  (lits "authenticationError: () => ({," ++ [ws] ++ lits "response: {" ++ [ws] ++
   lits "status: 401," ++ [ws] ++ lits "data: {," ++ [ws] ++
   lits "detail: 'Authentication failed'," ++ [ws] ++ lits "type: 'authentication_error'," ++
   [ws] ++ lits "}))," ++ [ws] ++ lits "}," ++ [ws] ++ lits "}),",
   [TLit (text ["authenticationError: () => ({"; "    response: {";
      "      status: 401,"; "      data: {";
      "        detail: 'Authentication failed',";
      "        type: 'authentication_error',"; "      },"; "    },"; "  }),"])]).

(** Line 34. *)
Definition rate_limited : regex * template :=
  (lits "rateLimited: () => ({," ++ [ws] ++ lits "response: {" ++ [ws] ++ lits "status: 429," ++ [ws] ++
   lits "headers: {" ++ [Cls (none_of (lit "}")) Star] ++ lits "}," ++ [ws] ++ lits "data: {," ++
   [ws] ++ lits "detail: 'Rate limit exceeded'," ++ [ws] ++ lits "}))," ++ [ws] ++ lits "}," ++ [ws] ++
   lits "}),",
   [TLit (text ["rateLimited: () => ({"; "    response: {"; "      status: 429,";
      "      headers: {"; "        'retry-after': '60',";
      "        'x-ratelimit-limit': '100',"; "        'x-ratelimit-remaining': '0',";
      "      },"; "      data: {"; "        detail: 'Rate limit exceeded',";
      "      },"; "    },"; "  }),"])]).

(** Line 38. *)
Definition validation_error : regex * template :=
  (lits "validationError: (field: string) => ({," ++ [ws] ++ lits "response: {" ++
   [Cls (none_of (lit "}")) Star] ++ lits "}," ++ [ws] ++ lits "}),",
   [TLit (text ["validationError: (field: string) => ({"; "    response: {";
      "      status: 400,"; "      data: {"; "        type: 'validation_error',";
      "        title: 'Validation failed',"; "        errors: ["; "          {";
      "            type: 'invalid_field',";
      "            detail: `Invalid value for ${field}`,"; "            field,";
      "          },"; "        ],"; "      },"; "    },"; "  }),"])]).

(** Line 46. *)
Definition cleanup_comma_brace : regex * template :=
  (lits "," ++ [ws] ++ lits "}" ++ [ws] ++ lits ")" ++ [ws] ++ lits "," ++ [ws],
   [TLit (text ["}),"; ""; "  "])]).

(** Line 47. *)
Definition cleanup_double_paren : regex * template :=
  (lits "})" ++ [ws] ++ lits ")" ++ [ws] ++ lits ",",
   [TLit (lit "}),")]).

(** Lines 28-40. *)
Definition patterns_to_fix : list (regex * template) :=
  [authentication_error; rate_limited; validation_error].

(** The substitutions of lines 13-47 in the order in which they run; the
    flag [re.DOTALL] of line 43 bears on [.] alone, which no pattern has. *)
Definition rules : list (regex * template) :=
  [create_test_server; paren_brace; brace_paren_comma; paren_comma;
   paren_brace_comma; brace_comma; comma_brace_paren; double_paren]
  ++ patterns_to_fix ++ [cleanup_comma_brace; cleanup_double_paren].

Definition msg_done : str := lit "Fixed test-utils.ts syntax errors".

Definition fix_test_utils : M unit :=
  content ← read_text file_path;
  let content := Remaining.apply_rules rules content in
  write_file file_path content;;
  print msg_done.

End Syntax.

(** ** Further notions used in the statements *)

(** A line of the output of the loop of [fix_test_utils.py] against the
    line of the input at the same index. *)
Definition same_or_closed (out inp : str) : Prop :=
  out = inp ∨
  (str_strip inp = lit "}," ∧ out = str_replace (lit "},") (lit "}),") inp).

(** A run of blanks: characters for which [str.isspace] holds, and nothing
    else. *)
Definition all_space (s : str) : Prop := is_blank_run s = true.

Definition no_nl (l : str) : Prop := newline ∉ l.

(** A text cut into stretches [p] and occurrences [m], with a last stretch. *)
Fixpoint text_of (segs : list (str * str)) (last : str) : str :=
  match segs with
  | [] => last
  | (p, m) :: segs' => p ++ m ++ text_of segs' last
  end.

(** The same text with [R] in the place of every occurrence. *)
Fixpoint rewritten (R : str) (segs : list (str * str)) (last : str) : str :=
  match segs with
  | [] => last
  | (p, _) :: segs' => p ++ R ++ rewritten R segs' last
  end.

(** The cut is the one [re.sub] finds: no match begins in a stretch, and
    every [m] is the match that begins where it stands. *)
Fixpoint segmented (r : regex) (segs : list (str * str)) (last : str) : Prop :=
  match segs with
  | [] => gap_free r last [] = true
  | (p, m) :: segs' =>
      gap_free r p (m ++ text_of segs' last) = true ∧
      occurrence r m (text_of segs' last) ∧
      segmented r segs' last
  end.


Definition script_world : world :=
  World {[ Script.file_path :=
             text ["  'k': (args) => ({"; "    a: 1,"; "  },"; "};"] ]} [].

(* ================================================================== *)
(** * Lemmas and theorems *)
(* ================================================================== *)
(** ** The brace-balance scan of [clean_test_utils.py] *)

Lemma balance_snoc ls l : balance (ls ++ [l]) = balance ls + brace_delta l.
Proof.
  unfold balance. induction ls as [|x ls IH]; simpl; [lia|].
  rewrite IH. lia.
Qed.

Lemma depth_start (lines : list str) s : depth lines s s = 1.
Proof. unfold depth. rewrite Nat.sub_diag. reflexivity. Qed.

Lemma depth_step (lines : list str) s j l :
  (s < j)%nat → lines !! j = Some l →
  depth lines s j = depth lines s (j - 1) + brace_delta l.
Proof.
  intros Hlt Hl. unfold depth.
  replace (j - s)%nat with (S (j - 1 - s)) by lia.
  rewrite (take_S_r _ _ l).
  - rewrite balance_snoc. lia.
  - rewrite lookup_drop. rewrite <- Hl. f_equal. lia.
Qed.

Lemma scan_loop_post (lines : list str) pre rest start_line brace_count :
  lines = pre ++ rest →
  scan_inv lines (length pre) start_line brace_count →
  scan_post lines (Clean.scan_loop rest (length pre) start_line brace_count).
Proof.
  revert pre start_line brace_count.
  induction rest as [|line rest IH]; intros pre st bc Hl Hinv.
  - rewrite app_nil_r in Hl. subst pre. simpl.
    unfold scan_post; simpl. destruct st as [s|]; simpl in *.
    + destruct Hinv as (Hs & Hm & Hno & Hbc & Hnz). split; [done|]. split.
      * intros e. split; [done|]. intros ((He1 & He2) & Hz & _).
        exfalso. apply (Hnz e); [lia | done].
      * intros k [l [Hk Hmk]]. apply lookup_lt_Some in Hk as Hk'.
        destruct (decide (k ≤ s)%nat); [by left|].
        exfalso. apply (Hno k); [lia|]. by exists l.
    + split; [|done]. intros k [l [Hk Hmk]]. apply lookup_lt_Some in Hk as Hk'.
      apply (Hinv k); [lia|]. by exists l.
  - assert (Hline : lines !! length pre = Some line).
    { rewrite Hl. by rewrite list_lookup_middle. }
    assert (Hl' : lines = (pre ++ [line]) ++ rest) by (by rewrite <- app_assoc).
    assert (Hlen : length (pre ++ [line]) = S (length pre)).
    { rewrite length_app; simpl; lia. }
    simpl. destruct (Clean.is_marker line) eqn:Hmk.
    + rewrite <- Hlen. apply IH; [done|]. rewrite Hlen. unfold scan_inv.
      split; [lia|]. split; [by exists line|]. split; [intros; lia|].
      split; [|intros; lia].
      replace (S (length pre) - 1)%nat with (length pre) by lia.
      by rewrite depth_start.
    + assert (Hnm : ¬ marker_at lines (length pre)).
      { intros [l [Hk Hm]]. congruence. }
      destruct st as [s|]; simpl in Hinv.
      * destruct Hinv as (Hs & Hm & Hno & Hbc & Hnz).
        assert (Hd : bc + brace_delta line = depth lines s (length pre)).
        { rewrite (depth_step lines s (length pre) line); [lia | lia | done]. }
        destruct (bc + brace_delta line =? 0) eqn:Hz.
        -- apply Z.eqb_eq in Hz. unfold scan_post; simpl.
           assert (Hfz : first_zero lines s (length pre)).
           { split; [|split]; [|lia|done].
             split; [done|]. by apply lookup_lt_Some in Hline. }
           split; [done|]. split.
           ++ intros e. split.
              ** intros [= <-]. done.
              ** intros ((He1 & He2) & Hze & Hfirst). f_equal.
                 destruct (Nat.lt_trichotomy e (length pre)) as [Hlt|[->|Hgt]]; [|done|].
                 --- exfalso. apply (Hnz e); [lia|done].
                 --- exfalso. apply (Hfirst (length pre)); [lia|lia].
           ++ intros k Hk. destruct (decide (k ≤ s)%nat); [by left|]. right.
              exists (length pre). split; [done|].
              destruct (decide (length pre < k)%nat); [done|]. exfalso.
              destruct (decide (k = length pre)) as [->|]; [done|].
              apply (Hno k); [lia|done].
        -- apply Z.eqb_neq in Hz. rewrite <- Hlen. apply IH; [done|].
           rewrite Hlen. unfold scan_inv. split; [lia|]. split; [done|]. split.
           ++ intros k Hk. destruct (decide (k = length pre)) as [->|]; [done|].
              apply Hno. lia.
           ++ replace (S (length pre) - 1)%nat with (length pre) by lia.
              split; [done|]. intros j Hj.
              destruct (decide (j = length pre)) as [->|]; [lia|].
              apply Hnz. lia.
      * rewrite <- Hlen. apply IH; [done|]. rewrite Hlen. unfold scan_inv.
        intros k Hk. destruct (decide (k = length pre)) as [->|]; [done|].
        apply Hinv. lia.
Qed.

Lemma find_responses_post (lines : list str) : scan_post lines (Clean.find_responses lines).
Proof.
  apply (scan_loop_post lines [] lines None 0); [done|].
  simpl. intros k Hk. lia.
Qed.


Example find_responses_example :
  Clean.find_responses responses_lines = (Some 1%nat, Some 4%nat).
Proof. vm_compute. reflexivity. Qed.

(** A later marker line restarts the scan: the reported start is the last
    marker line met before the scan stops. *)
Example find_responses_restarts :
  Clean.find_responses [Clean.marker; Clean.marker; lit "}"]
  = (Some 1%nat, Some 2%nat).
Proof. vm_compute. reflexivity. Qed.

(** C1.  When some line contains the start marker, the scan reports a start
    index [s] whose line contains the marker, from which it counts with
    depth 1: it reports the end index [e] exactly when [e] is the first
    index after [s] at which the running depth, 1 plus the opening braces
    minus the closing braces of the lines [s+1 .. e], is 0.  The start [s]
    is the last marker line met before the scan stops. *)
Theorem scan_returns_first_balanced_line (lines : list str) :
  (∃ k, marker_at lines k) →
  ∃ s, (Clean.find_responses lines).1 = Some s ∧
       marker_at lines s ∧
       (∀ e, (Clean.find_responses lines).2 = Some e ↔ first_zero lines s e) ∧
       (∀ k, marker_at lines k →
             (k ≤ s)%nat ∨ ∃ e, (Clean.find_responses lines).2 = Some e ∧ (e < k)%nat).
Proof.
  intros [k Hk]. pose proof (find_responses_post lines) as Hpost.
  unfold scan_post in Hpost.
  destruct ((Clean.find_responses lines).1) as [s|] eqn:Hs.
  - exists s. destruct Hpost as (Hm & He & Hlast). done.
  - destruct Hpost as [Hno _]. exfalso. by apply (Hno k).
Qed.

Lemma scan_returns_first_balanced_line_witness :
  ∃ s, (Clean.find_responses responses_lines).1 = Some s ∧
       marker_at responses_lines s ∧
       (∀ e, (Clean.find_responses responses_lines).2 = Some e
             ↔ first_zero responses_lines s e) ∧
       (∀ k, marker_at responses_lines k →
             (k ≤ s)%nat ∨
             ∃ e, (Clean.find_responses responses_lines).2 = Some e ∧ (e < k)%nat).
Proof.
  apply (scan_returns_first_balanced_line responses_lines).
  exists 1%nat, Clean.marker. split; vm_compute; reflexivity.
Defined.

(** ** Span replacement *)

(** C5.  The line count after a span replacement is
    [len(lines) - (end_line - start_line + 1) + len(new_lines)]. *)
Theorem replace_span_length (lines new_lines : list str) (start_line end_line : nat) :
  (start_line ≤ end_line < length lines)%nat →
  Z.of_nat (length (Clean.replace_span lines start_line end_line new_lines))
  = Z.of_nat (length lines) - (Z.of_nat end_line - Z.of_nat start_line + 1)
    + Z.of_nat (length new_lines).
Proof.
  intros [Hse He]. unfold Clean.replace_span.
  rewrite !length_app, length_take, length_drop. lia.
Qed.

Lemma replace_span_length_witness :
  Z.of_nat (length (Clean.replace_span responses_lines 1 4 Clean.new_responses))
  = Z.of_nat (length responses_lines) - (Z.of_nat 4 - Z.of_nat 1 + 1)
    + Z.of_nat (length Clean.new_responses).
Proof.
  apply (replace_span_length responses_lines Clean.new_responses 1 4).
  simpl. lia.
Defined.

(** C6.  After a span replacement the lines before [start_line] stand at
    their old indices, the replacement lines follow from index [start_line]
    on, and the lines after [end_line] follow the replacement, each in its
    original order. *)
Theorem replace_span_frame (lines new_lines : list str) (start_line end_line : nat) :
  (start_line ≤ end_line < length lines)%nat →
  let result := Clean.replace_span lines start_line end_line new_lines in
  (∀ k, (k < start_line)%nat → result !! k = lines !! k) ∧
  (∀ k, (k < length new_lines)%nat → result !! (start_line + k)%nat = new_lines !! k) ∧
  (∀ k, (end_line < k)%nat →
        result !! (start_line + length new_lines + (k - end_line - 1))%nat = lines !! k).
Proof.
  intros [Hse He] result. subst result. unfold Clean.replace_span.
  assert (Hlen : length (take start_line lines) = start_line).
  { rewrite length_take. lia. }
  split; [|split]; intros k Hk.
  - rewrite <- app_assoc. rewrite lookup_app_l by lia.
    by apply lookup_take_lt.
  - rewrite lookup_app_l by (rewrite length_app; lia).
    rewrite lookup_app_r by lia. f_equal. lia.
  - rewrite lookup_app_r by (rewrite length_app; lia).
    rewrite length_app, Hlen, lookup_drop. f_equal. lia.
Qed.

Lemma replace_span_frame_witness :
  let result := Clean.replace_span responses_lines 1 4 Clean.new_responses in
  (∀ k, (k < 1)%nat → result !! k = responses_lines !! k) ∧
  (∀ k, (k < length Clean.new_responses)%nat →
        result !! (1 + k)%nat = Clean.new_responses !! k) ∧
  (∀ k, (4 < k)%nat →
        result !! (1 + length Clean.new_responses + (k - 4 - 1))%nat
        = responses_lines !! k).
Proof.
  apply (replace_span_frame responses_lines Clean.new_responses 1 4).
  simpl. lia.
Defined.

(** ** [clean_test_utils.py] as a whole *)

Lemma run_not_found (w : world) (content : str) :
  files w !! Clean.file_path = Some content →
  (Clean.find_responses (str_split newline content)).1 = None
  ∨ (Clean.find_responses (str_split newline content)).2 = None →
  Clean.fix_test_utils_comprehensive w
  = Ok tt (World (files w) (stdout w ++ [Clean.could_not_find])).
Proof.
  intros Hfile Hnone. unfold Clean.fix_test_utils_comprehensive.
  unfold mbind, M_bind, read_file. rewrite Hfile.
  destruct (Clean.find_responses (str_split newline content)) as [[s|] [e|]];
    simpl in Hnone; try reflexivity.
  destruct Hnone; discriminate.
Qed.

Lemma run_found (w : world) (content : str) (s e : nat) :
  files w !! Clean.file_path = Some content →
  Clean.find_responses (str_split newline content) = (Some s, Some e) →
  Clean.fix_test_utils_comprehensive w
  = Ok tt (World
      (<[Clean.file_path :=
           str_join Clean.join_separator
             (Clean.replace_span (str_split newline content) s e Clean.new_responses)]>
         (files w))
      ((stdout w ++ [lit "Fixing responses section from line " ++ show_nat s
                     ++ lit " to " ++ show_nat e])
       ++ [lit "Fixed test-utils.ts responses section"])).
Proof.
  intros Hfile Hfound. unfold Clean.fix_test_utils_comprehensive.
  unfold mbind, M_bind, read_file. rewrite Hfile, Hfound. reflexivity.
Qed.

(** C3.  When no line contains the start marker, or the running brace
    balance counted from the start the scan reports never returns to 0, the
    repair writes nothing: the files are as before, and the one line it
    prints says that the responses object could not be found. *)
Theorem unfound_or_unbalanced_leaves_document (w : world) (content : str) :
  files w !! Clean.file_path = Some content →
  (∀ k, ¬ marker_at (str_split newline content) k) ∨
  (∃ s, (Clean.find_responses (str_split newline content)).1 = Some s ∧
        ∀ j, (s < j < length (str_split newline content))%nat →
             depth (str_split newline content) s j ≠ 0) →
  Clean.fix_test_utils_comprehensive w
  = Ok tt (World (files w) (stdout w ++ [Clean.could_not_find])).
Proof.
  intros Hfile Hcond. apply (run_not_found w content Hfile).
  pose proof (find_responses_post (str_split newline content)) as Hpost.
  unfold scan_post in Hpost.
  destruct ((Clean.find_responses (str_split newline content)).1) as [s|] eqn:Hs;
    [right | by left].
  destruct Hpost as (Hm & He & _).
  destruct Hcond as [Hno | (s' & [= <-] & Hnz)].
  - exfalso. by apply (Hno s).
  - destruct ((Clean.find_responses (str_split newline content)).2) as [e|]; [|done].
    exfalso. destruct (proj1 (He e) eq_refl) as (Hrange & Hz & _).
    by apply (Hnz e).
Qed.

Lemma unfound_or_unbalanced_leaves_document_witness :
  Clean.fix_test_utils_comprehensive unterminated_world
  = Ok tt (World (files unterminated_world)
                 (stdout unterminated_world ++ [Clean.could_not_find])).
Proof.
  apply (unfound_or_unbalanced_leaves_document unterminated_world
           (str_join [newline] unterminated_lines)).
  - apply lookup_singleton_eq.
  - right. exists 0%nat. split; [vm_compute; reflexivity|].
    intros j Hj. assert (j = 1%nat) as -> by (vm_compute in Hj; lia).
    vm_compute. discriminate.
Defined.

(** ** Splitting and joining *)

Lemma str_split_nonempty (sep : ascii) (s : str) : str_split sep s ≠ [].
Proof.
  destruct s as [|c s]; simpl; [done|].
  destruct (Ascii.eqb c sep); [done|]. by destruct (str_split sep s).
Qed.

(** Joining the lines of a document with the separator on which it was
    split gives the document back. *)
Lemma str_join_split (sep : ascii) (s : str) :
  str_join [sep] (str_split sep s) = s.
Proof.
  induction s as [|c s IH]; [reflexivity|]. simpl.
  pose proof (str_split_nonempty sep s) as Hne.
  destruct (Ascii.eqb c sep) eqn:Hc.
  - apply Ascii.eqb_eq in Hc. subst c.
    destruct (str_split sep s) as [|l ls]; [done|].
    simpl in *. by rewrite IH.
  - destruct (str_split sep s) as [|l ls]; [done|].
    simpl in *. destruct ls; simpl in *; by rewrite <- IH.
Qed.

(** C4 (the code departs from it).  On a document whose responses object
    is found, the repair writes the surviving and the replacement lines
    joined by a backslash followed by [n], not by the line feed on which
    the document was split: the text written differs from the join by line
    feeds and is a single line. *)
Theorem fixed_content_is_joined_by_backslash_n :
  let content := str_join [newline] responses_lines in
  let w := World {[ Clean.file_path := content ]} [] in
  let new_lines := Clean.replace_span (str_split newline content) 1 4 Clean.new_responses in
  ∃ w', Clean.fix_test_utils_comprehensive w = Ok tt w' ∧
        files w' !! Clean.file_path = Some (str_join [backslash; "n"%char] new_lines) ∧
        str_join [backslash; "n"%char] new_lines ≠ str_join [newline] new_lines ∧
        str_split newline (str_join [backslash; "n"%char] new_lines)
        = [str_join [backslash; "n"%char] new_lines].
Proof.
  intros content w new_lines. eexists. split; [|split; [|split]].
  - apply (run_found w content 1 4).
    + apply lookup_singleton_eq.
    + vm_compute. reflexivity.
  - simpl. apply lookup_insert_eq.
  - apply (bool_decide_eq_false_1 _). vm_compute. reflexivity.
  - vm_compute. reflexivity.
Qed.

(** ** The loop of [fix_test_utils.py] *)

(** The opening pattern asks for a key in single quotes. *)
Example opener_needs_quoted_key :
  re_match FixUtils.opener (lit "foo: (args) => ({") = false ∧
  re_match FixUtils.opener (lit "  'foo': (args) => ({") = true.
Proof. split; vm_compute; reflexivity. Qed.

(** C2, as stated, fails.  On the lines of the scenario the loop enters no
    block and takes no closing branch, so it reports no line index: the
    first line has its key without quotes.  The parenthesis balance of the
    scenario, counted from depth 1 on line 0, is not 0 at line 2 either,
    and with the key in single quotes the counter [paren_count] of the
    loop is 1, not 0, where the block closes. *)
Lemma scenario_reports_no_index_and_parentheses_stay_open :
  events 5 scenario_lines FixUtils.init = [] ∧
  ¬ (paren_depth scenario_lines 0 2 = 0) ∧
  ¬ (∃ k bc, Closed k bc 0 ∈ events 5 quoted_lines FixUtils.init).
Proof.
  split; [vm_compute; reflexivity|]. split; [vm_compute; discriminate|].
  intros (k & bc & Hin). vm_compute in Hin.
  apply elem_of_cons in Hin as [Hin|Hin]; [discriminate|].
  apply elem_of_cons in Hin as [Hin|Hin]; [discriminate|].
  by apply elem_of_nil in Hin.
Qed.

(** C2, amended.  The loop, run from its start on the lines of the
    scenario, enters no block and copies the three lines.  Run from its
    start on the same lines with the key in single quotes, it enters a
    block at line 0 and takes its closing branch at line index 2, the first
    line at which the brace balance counted from 1 is 0 and whose stripped
    text is [},]; it rewrites that line to [}),], and its parenthesis
    counter is still 1 there. *)
Theorem quoted_scenario_closes_on_brace_balance :
  (events 5 scenario_lines FixUtils.init = [] ∧
   ∃ st, FixUtils.run 5 scenario_lines FixUtils.init = Some (FixUtils.Finished st) ∧
         FixUtils.fixed_lines st = scenario_lines) ∧
  events 5 quoted_lines FixUtils.init = [Opened 0; Closed 2 0 1] ∧
  depth quoted_lines 0 1 = 1 ∧
  depth quoted_lines 0 2 = 0 ∧
  ∃ st, FixUtils.run 5 quoted_lines FixUtils.init = Some (FixUtils.Finished st) ∧
        FixUtils.fixed_lines st
        = [lit "'foo': (args) => ({"; lit "  a: 1,"; lit "}),"].
Proof.
  split; [split; [vm_compute; reflexivity | eexists; split; vm_compute; reflexivity]|].
  repeat split; try (vm_compute; reflexivity).
  eexists. split; vm_compute; reflexivity.
Qed.

Lemma seq_snoc (n : nat) : seq 0 n ++ [n] = seq 0 (S n).
Proof. by rewrite seq_S. Qed.

Lemma loop_inv_init (lines : list str) : loop_inv lines FixUtils.init.
Proof. unfold loop_inv; simpl. repeat split; [lia | done]. Qed.

(** Below the end of the lines a step reads line [i] and moves on. *)
Lemma step_progress (lines : list str) (st : FixUtils.state) :
  loop_inv lines st → (FixUtils.i st < length lines)%nat →
  ∃ st', FixUtils.step lines st = FixUtils.Next st' ∧
         FixUtils.i st' = S (FixUtils.i st) ∧ loop_inv lines st'.
Proof.
  intros (Hi & Hpc & Hex & Hfl) Hlt.
  destruct (lookup_lt_is_Some_2 lines _ Hlt) as [l Hl].
  apply Nat.ltb_lt in Hlt as Hltb.
  destruct st as [i fixed bc pc blk ex]; simpl in *.
  assert (Hseq : ex ++ [i] = seq 0 (S i)) by (subst ex; apply seq_snoc).
  unfold FixUtils.step; simpl. rewrite Hltb, Hl. destruct blk; simpl.
  - rewrite (Hpc eq_refl), orb_true_r.
    match goal with |- context [if ?c then _ else _] => destruct c end;
      eexists; (split; [reflexivity|]); (split; [reflexivity|]);
      unfold loop_inv; simpl; rewrite length_app; simpl;
      (split; [lia|]); (split; [done|]); (split; [done | lia]).
  - match goal with |- context [if ?c then _ else _] => destruct c end;
      eexists; (split; [reflexivity|]); (split; [reflexivity|]);
      unfold loop_inv; simpl; rewrite length_app; simpl;
      (split; [lia|]); (split; [done|]); (split; [done | lia]).
Qed.

(** At the end of the lines the loop stops, after leaving the block it may
    be in. *)
Lemma step_at_end (lines : list str) (st : FixUtils.state) :
  FixUtils.i st = length lines →
  if FixUtils.in_block st then
    FixUtils.step lines st
    = FixUtils.Next (FixUtils.State (FixUtils.i st) (FixUtils.fixed_lines st)
                       (FixUtils.bracket_count st) (FixUtils.paren_count st)
                       false (FixUtils.examined st))
  else FixUtils.step lines st = FixUtils.Done.
Proof.
  intros Hi. unfold FixUtils.step.
  assert ((FixUtils.i st <? length lines)%nat = false) as ->
    by (apply Nat.ltb_ge; lia).
  by destruct (FixUtils.in_block st).
Qed.

(** From a state that satisfies the invariant the loop ends normally, at
    the end of the lines, within [length lines - i + 2] steps. *)
Lemma run_total (lines : list str) (n : nat) :
  ∀ st, (length lines - FixUtils.i st)%nat = n → loop_inv lines st →
  ∀ fuel, (n + 2 ≤ fuel)%nat →
  ∃ st', FixUtils.run fuel lines st = Some (FixUtils.Finished st') ∧
         loop_inv lines st' ∧ FixUtils.i st' = length lines.
Proof.
  induction n as [|n IH]; intros st Hn Hinv fuel Hfuel.
  - assert (Hi : FixUtils.i st = length lines) by (destruct Hinv; lia).
    pose proof (step_at_end lines st Hi) as Hstep.
    destruct fuel as [|[|fuel]]; [lia | lia |].
    destruct (FixUtils.in_block st) eqn:Hb.
    + cbn [FixUtils.run]. rewrite Hstep.
      set (st1 := FixUtils.State _ _ _ _ false _).
      pose proof (step_at_end lines st1 Hi) as Hstep1. simpl in Hstep1.
      rewrite Hstep1. exists st1. split; [done|]. split; [|done].
      destruct Hinv as (H1 & H2 & H3 & H4). unfold loop_inv; simpl. done.
    + cbn [FixUtils.run]. rewrite Hstep. by exists st.
  - assert (Hlt : (FixUtils.i st < length lines)%nat) by lia.
    destruct (step_progress lines st Hinv Hlt) as (st1 & Hstep & Hi1 & Hinv1).
    destruct fuel as [|fuel]; [lia|].
    cbn [FixUtils.run]. rewrite Hstep. apply IH; [lia | done | lia].
Qed.

Lemma closes_at_here (lines : list str) (k : nat) (bc : Z) (l : str) :
  lines !! k = Some l → bc + brace_delta l = 0 → str_strip l = lit "}," →
  closes_at lines k bc k.
Proof.
  intros Hl Hz Hs. split; [lia|]. exists l. split; [done|]. split; [|done].
  replace (S k - k)%nat with 1%nat by lia.
  rewrite (drop_S _ _ _ Hl). simpl. lia.
Qed.

Lemma closes_at_later (lines : list str) (k : nat) (bc : Z) (l : str) (j : nat) :
  lines !! k = Some l →
  closes_at lines (S k) (bc + brace_delta l) j → closes_at lines k bc j.
Proof.
  intros Hl [Hkj (l' & Hj & Hz & Hs)]. split; [lia|].
  exists l'. split; [done|]. split; [|done].
  rewrite (drop_S _ _ _ Hl).
  replace (S j - k)%nat with (S (S j - S k)) by lia.
  simpl. simpl in Hz. lia.
Qed.

(** Inside a block in which the closing branch is never taken, the loop
    copies every remaining line and ends normally. *)
Lemma run_unclosed (lines : list str) (n : nat) :
  ∀ st, (length lines - FixUtils.i st)%nat = n →
  (FixUtils.i st ≤ length lines)%nat →
  FixUtils.in_block st = true → FixUtils.paren_count st = 1 →
  (∀ j, ¬ closes_at lines (FixUtils.i st) (FixUtils.bracket_count st) j) →
  ∀ fuel, (n + 2 ≤ fuel)%nat →
  ∃ st', FixUtils.run fuel lines st = Some (FixUtils.Finished st') ∧
         FixUtils.fixed_lines st'
         = FixUtils.fixed_lines st ++ drop (FixUtils.i st) lines ∧
         FixUtils.i st' = length lines.
Proof.
  induction n as [|n IH]; intros st Hn Hi Hb Hpc Hnever fuel Hfuel.
  - assert (Hi' : FixUtils.i st = length lines) by lia.
    pose proof (step_at_end lines st Hi') as Hstep. rewrite Hb in Hstep.
    destruct fuel as [|[|fuel]]; [lia | lia |].
    cbn [FixUtils.run]. rewrite Hstep.
    set (st1 := FixUtils.State _ _ _ _ false _).
    pose proof (step_at_end lines st1 Hi') as Hstep1. simpl in Hstep1.
    rewrite Hstep1. exists st1. split; [done|]. split; [|done].
    simpl. rewrite drop_ge by lia. by rewrite app_nil_r.
  - assert (Hlt : (FixUtils.i st < length lines)%nat) by lia.
    destruct (lookup_lt_is_Some_2 lines _ Hlt) as [l Hl].
    apply Nat.ltb_lt in Hlt as Hltb.
    destruct fuel as [|fuel]; [lia|].
    destruct st as [i fixed bc pc blk ex].
    cbn [FixUtils.i FixUtils.fixed_lines FixUtils.bracket_count
         FixUtils.paren_count FixUtils.in_block] in *.
    subst blk pc. cbn [FixUtils.run]. unfold FixUtils.step.
    cbn [FixUtils.i FixUtils.fixed_lines FixUtils.bracket_count
         FixUtils.paren_count FixUtils.in_block FixUtils.examined].
    rewrite Hltb, Hl, orb_true_r. cbn [andb].
    destruct ((bc + brace_delta l =? 0)
              && bool_decide (str_strip l = lit "},")) eqn:Hc.
    + exfalso. apply andb_true_iff in Hc as [Hz Hs].
      apply Z.eqb_eq in Hz. apply bool_decide_eq_true in Hs.
      apply (Hnever i). by apply (closes_at_here lines i bc l).
    + edestruct (IH (FixUtils.State (S i) (fixed ++ [l]) (bc + brace_delta l)
                       1 true (ex ++ [i]))) as (st' & Hrun & Hfixed & Hend);
        [simpl; lia | simpl; lia | done | done | | | ].
      * simpl. intros j Hj. apply (Hnever j).
        by apply (closes_at_later lines i bc l j).
      * instantiate (1 := fuel). lia.
      * exists st'. split; [done|]. split; [|done].
        rewrite Hfixed. simpl. rewrite <- app_assoc. simpl.
        by rewrite (drop_S _ _ _ Hl).
Qed.

(** C10.  On every line stream the loop ends normally within
    [length lines + 2] steps, having read the lines [0 .. length lines - 1]
    once each and in order, and having put out one line per line read.
    From the state in which a block is entered before line [k], when the
    closing branch (brace balance 0 on a line whose stripped text is [},])
    is never taken, it copies all the remaining lines unchanged and ends
    normally. *)
Theorem scan_loop_terminates (lines : list str) :
  (∃ st, FixUtils.run (length lines + 2) lines FixUtils.init
         = Some (FixUtils.Finished st) ∧
         FixUtils.examined st = seq 0 (length lines) ∧
         length (FixUtils.fixed_lines st) = length lines) ∧
  (∀ k fixed ex,
     (k ≤ length lines)%nat → (∀ j, ¬ closes_at lines k 1 j) →
     ∃ st, FixUtils.run (length lines + 2) lines (FixUtils.State k fixed 1 1 true ex)
           = Some (FixUtils.Finished st) ∧
           FixUtils.fixed_lines st = fixed ++ drop k lines ∧
           FixUtils.i st = length lines).
Proof.
  split.
  - destruct (run_total lines (length lines) FixUtils.init) with (fuel := (length lines + 2)%nat)
      as (st & Hrun & (Hi & Hpc & Hex & Hfl) & Hend);
      [simpl; lia | apply loop_inv_init | lia |].
    exists st. split; [done|]. by rewrite Hex, Hfl, Hend.
  - intros k fixed ex Hk Hnever.
    apply (run_unclosed lines (length lines - k)
             (FixUtils.State k fixed 1 1 true ex)); simpl; try done; lia.
Qed.

(** The whole loop on a block that is never closed. *)
Example unclosed_block_whole_loop :
  ∃ st, FixUtils.run (length unclosed_lines + 2) unclosed_lines FixUtils.init
        = Some (FixUtils.Finished st) ∧
        FixUtils.fixed_lines st = unclosed_lines ∧
        FixUtils.in_block st = false.
Proof. eexists. repeat split; vm_compute; reflexivity. Qed.

(** The whole loop on a block that is closed: its last line is rewritten. *)
Example closed_block_whole_loop :
  ∃ st, FixUtils.run 5 [lit "  'k': (args) => ({"; lit "    a: 1,"; lit "  },"]
          FixUtils.init
        = Some (FixUtils.Finished st) ∧
        FixUtils.fixed_lines st
        = [lit "  'k': (args) => ({"; lit "    a: 1,"; lit "  }),"].
Proof. eexists. split; vm_compute; reflexivity. Qed.

Lemma scan_loop_terminates_witness :
  (∃ st, FixUtils.run (length unclosed_lines + 2) unclosed_lines FixUtils.init
         = Some (FixUtils.Finished st) ∧
         FixUtils.examined st = seq 0 (length unclosed_lines) ∧
         length (FixUtils.fixed_lines st) = length unclosed_lines) ∧
  (∃ st, FixUtils.run (length unclosed_lines + 2) unclosed_lines
           (FixUtils.State 1 [lit "  'k': (args) => ({"] 1 1 true [0%nat])
         = Some (FixUtils.Finished st) ∧
         FixUtils.fixed_lines st
         = [lit "  'k': (args) => ({"] ++ drop 1 unclosed_lines ∧
         FixUtils.i st = length unclosed_lines).
Proof.
  destruct (scan_loop_terminates unclosed_lines) as [Hall Hblock].
  split; [exact Hall|]. apply Hblock; [simpl; lia|].
  intros j [Hj (l & Hl & Hz & Hs)].
  destruct j as [|[|[|j]]]; vm_compute in Hl; [lia | | | discriminate Hl];
    injection Hl as <-; vm_compute in Hs; discriminate Hs.
Defined.

(** ** Characters and their bytes *)

Arguments decode1 : simpl never.

Lemma decode1_length (s : str) (cp : N) (n : nat) :
  decode1 s = Some (cp, n) → (1 ≤ n ≤ length s)%nat.
Proof.
  unfold decode1. destruct s as [|c0 [|c1 [|c2 [|c3 s]]]]; [done|..];
    repeat match goal with
           | |- context [if ?c then _ else _] => destruct c
           end;
    intros [= <- <-] || done; simpl; lia.
Qed.

(** The character at the head of a text is read off its own bytes. *)
Lemma decode1_prefix (s t : str) (cp : N) (n : nat) :
  decode1 s = Some (cp, n) → decode1 (take n s ++ t) = Some (cp, n).
Proof.
  unfold decode1. destruct s as [|c0 [|c1 [|c2 [|c3 s]]]]; [done|..];
    repeat match goal with
           | |- context [if ?c then _ else _] => destruct c eqn:?
           end;
    intros [= <- <-] || done; cbn [take app];
    repeat match goal with
           | H : ?c = _ |- context [if ?c then _ else _] => rewrite H
           end; reflexivity.
Qed.

Lemma eat_bytes_consumed (bs : str) (st : mstate) :
  consumed (eat_bytes bs st) = (consumed st + length bs)%nat.
Proof.
  unfold eat_bytes. revert st. induction bs as [|c bs IH]; intros st; simpl.
  - lia.
  - rewrite IH. simpl. lia.
Qed.

(** ** Matching *)

Lemma star_consumed (p : ascii → bool) (k : str → mstate → option mstate) (m : nat) :
  (∀ s st st', k s st = Some st' → (consumed st + m ≤ consumed st')%nat) →
  ∀ s st st', star p k s st = Some st' → (consumed st + m ≤ consumed st')%nat.
Proof.
  intros Hk. induction s as [|c s IH]; intros st st' H; simpl in H.
  - by apply Hk in H.
  - destruct (p c); [|by apply Hk in H].
    destruct (star p k s (eat c st)) eqn:E; [|by apply Hk in H].
    injection H as <-. apply IH in E. simpl in E. lia.
Qed.

Lemma ustar_start (p : N → bool) (k : str → mstate → option mstate)
    (s : str) (st : mstate) :
  ustar p k s st 0
  = match decode1 s with
    | Some (cp, S m) =>
        if p cp then
          match s with
          | c :: s' =>
              match ustar p k s' (eat c st) m with
              | Some r => Some r
              | None => k s st
              end
          | [] => k s st
          end
        else k s st
    | _ => k s st
    end.
Proof. by destruct s. Qed.

Lemma ustar_consumed (p : N → bool) (k : str → mstate → option mstate) (m : nat) :
  (∀ s st st', k s st = Some st' → (consumed st + m ≤ consumed st')%nat) →
  ∀ s st pend st', ustar p k s st pend = Some st' →
                   (consumed st + m ≤ consumed st')%nat.
Proof.
  intros Hk. induction s as [|c s IH]; intros st pend st' H.
  - destruct pend; [|done]. rewrite ustar_start in H.
    destruct (decode1 []) as [[cp [|n]]|]; try by apply Hk in H.
    destruct (p cp); by apply Hk in H.
  - destruct pend as [|pend].
    + rewrite ustar_start in H.
      destruct (decode1 (c :: s)) as [[cp [|n]]|]; try by apply Hk in H.
      destruct (p cp); [|by apply Hk in H].
      destruct (ustar p k s (eat c st) n) eqn:E; [|by apply Hk in H].
      injection H as <-. apply IH in E. simpl in E. lia.
    + change (ustar p k s (eat c st) pend = Some st') in H.
      apply IH in H. simpl in H. lia.
Qed.

Lemma match_items_consumed (r : regex) :
  ∀ s st st', match_items r s st = Some st' →
              (consumed st + min_len r ≤ consumed st')%nat.
Proof.
  induction r as [|it r IH]; intros s st st' H.
  - injection H as <-. simpl. lia.
  - destruct it as [p [| |]|p [| |]| | |]; simpl in H |- *.
    + destruct s as [|c s]; [done|]. destruct (p c); [|done].
      apply IH in H. simpl in H. lia.
    + by apply (star_consumed p (match_items r) (min_len r) IH) in H.
    + destruct s as [|c s]; [done|]. destruct (p c); [|done].
      apply (star_consumed p (match_items r) (min_len r) IH) in H.
      simpl in H. lia.
    + destruct (decode1 s) as [[cp n]|] eqn:Hd; [|done].
      destruct (p cp); [|done]. apply decode1_length in Hd.
      apply IH in H. rewrite eat_bytes_consumed, length_take in H. lia.
    + by apply (ustar_consumed p (match_items r) (min_len r) IH) in H.
    + destruct (decode1 s) as [[cp n]|] eqn:Hd; [|done].
      destruct (p cp); [|done]. apply decode1_length in Hd.
      apply (ustar_consumed p (match_items r) (min_len r) IH) in H.
      rewrite eat_bytes_consumed, length_take in H. lia.
    + destruct s as [|c s]; [by apply IH in H|].
      destruct (Ascii.eqb c newline); [by apply IH in H | done].
    + by apply IH in H.
    + by apply IH in H.
Qed.

Lemma match_at_length (r : regex) (s : str) (n : nat) (g : list str) :
  match_at r s = Some (n, g) → (min_len r ≤ n)%nat.
Proof.
  unfold match_at. destruct (match_items r s mstate0) as [st|] eqn:E; [|done].
  intros [= <- <-]. apply match_items_consumed in E. simpl in E. lia.
Qed.

(** No pattern of [fix_remaining_syntax.py] matches the empty text, so
    [re.sub] never meets an empty match there. *)
Lemma rules_match_nonempty (rule : regex * template) (s : str) (n : nat) (g : list str) :
  rule ∈ Remaining.rules → match_at rule.1 s = Some (n, g) → (0 < n)%nat.
Proof.
  intros Hin Hm. apply match_at_length in Hm.
  assert (1 ≤ min_len rule.1)%nat; [|lia].
  unfold Remaining.rules in Hin.
  repeat (apply elem_of_cons in Hin as [->|Hin]; [vm_compute; lia|]).
  by apply elem_of_nil in Hin.
Qed.

(** ** Substitution *)

Section Substitution.

Variables (r : regex) (t : template).

Lemma re_sub_go_skip (x rest : str) :
  re_sub_go r t (length x) (x ++ rest) = re_sub_go r t 0 rest.
Proof. induction x as [|c x IH]; [reflexivity | exact IH]. Qed.

(** An occurrence is replaced by the expansion of the template, and the
    scan resumes behind it. *)
Lemma re_sub_go_occurrence (m rest : str) :
  occurrence r m rest →
  ∃ g, match_at r (m ++ rest) = Some (length m, g) ∧
       re_sub_go r t 0 (m ++ rest) = expand t g ++ re_sub_go r t 0 rest.
Proof.
  intros [Hne [g Hg]]. exists g. split; [done|].
  destruct m as [|c m]; [done|].
  change (re_sub_go r t 0 ((c :: m) ++ rest))
    with (match match_at r ((c :: m) ++ rest) with
          | Some (n, g) =>
              expand t g ++
              match n with
              | O => c :: re_sub_go r t 0 (m ++ rest)
              | S k => re_sub_go r t k (m ++ rest)
              end
          | None => c :: re_sub_go r t 0 (m ++ rest)
          end).
  rewrite Hg. simpl. by rewrite re_sub_go_skip.
Qed.

(** A stretch in which no match begins is copied. *)
Lemma re_sub_go_gap (p rest : str) :
  gap_free r p rest = true →
  re_sub_go r t 0 (p ++ rest) = p ++ re_sub_go r t 0 rest.
Proof.
  induction p as [|c p IH]; [reflexivity|]. intros Hgap. simpl in Hgap.
  change ((c :: p) ++ rest) with (c :: (p ++ rest)).
  change (re_sub_go r t 0 (c :: (p ++ rest)))
    with (match match_at r (c :: (p ++ rest)) with
          | Some (n, g) =>
              expand t g ++
              match n with
              | O => c :: re_sub_go r t 0 (p ++ rest)
              | S k => re_sub_go r t k (p ++ rest)
              end
          | None => c :: re_sub_go r t 0 (p ++ rest)
          end).
  destruct (match_at r (c :: (p ++ rest))); [discriminate|].
  simpl. f_equal. by apply IH.
Qed.

(** A text in which the pattern is not found is left as it is. *)
Lemma re_sub_not_found (s : str) :
  re_search r s = false → re_sub r t s = s.
Proof.
  unfold re_sub. induction s as [|c s IH]; simpl; intros Hs.
  - by destruct (match_at r []).
  - destruct (match_at r (c :: s)); [discriminate|]. f_equal. by apply IH.
Qed.

End Substitution.

Lemma apply_rules_not_found (rs : list (regex * template)) (text : str) :
  (∀ rule, rule ∈ rs → re_search rule.1 text = false) →
  Remaining.apply_rules rs text = text.
Proof.
  unfold Remaining.apply_rules. induction rs as [|rule rs IH]; intros Hrs; [reflexivity|].
  simpl. rewrite re_sub_not_found by (apply Hrs; left).
  apply IH. intros rule' Hin. apply Hrs. by right.
Qed.

(** With no rule the pipeline is the identity. *)
Lemma apply_rules_nil (text : str) : Remaining.apply_rules [] text = text.
Proof. reflexivity. Qed.

Example catch_rule_example :
  re_sub Remaining.catch_block.1 Remaining.catch_block.2 catch_text
  = lit "try { a() } catch (_error) { b() } catch (_error){} catch (_error) {c}".
Proof. vm_compute. reflexivity. Qed.

(** C7.  A text made of three occurrences of the pattern of the catch rule
    and of four stretches in which no match of it begins is rewritten, in
    one pass of the rule, to the same stretches with [catch (_error)] in
    the place of each occurrence. *)
Theorem catch_rule_rewrites_three_occurrences (p0 m1 p1 m2 p2 m3 p3 : str) :
  gap_free Remaining.catch_block.1 p0 (m1 ++ p1 ++ m2 ++ p2 ++ m3 ++ p3) = true →
  occurrence Remaining.catch_block.1 m1 (p1 ++ m2 ++ p2 ++ m3 ++ p3) →
  gap_free Remaining.catch_block.1 p1 (m2 ++ p2 ++ m3 ++ p3) = true →
  occurrence Remaining.catch_block.1 m2 (p2 ++ m3 ++ p3) →
  gap_free Remaining.catch_block.1 p2 (m3 ++ p3) = true →
  occurrence Remaining.catch_block.1 m3 p3 →
  gap_free Remaining.catch_block.1 p3 [] = true →
  re_sub Remaining.catch_block.1 Remaining.catch_block.2
    (p0 ++ m1 ++ p1 ++ m2 ++ p2 ++ m3 ++ p3)
  = p0 ++ lit "catch (_error)" ++ p1 ++ lit "catch (_error)" ++ p2
    ++ lit "catch (_error)" ++ p3.
Proof.
  intros G0 O1 G1 O2 G2 O3 G3. unfold re_sub.
  set (r := Remaining.catch_block.1) in *. set (t := Remaining.catch_block.2).
  assert (Hexp : ∀ g, expand t g = lit "catch (_error)") by reflexivity.
  destruct (re_sub_go_occurrence r t _ _ O1) as (g1 & _ & E1).
  destruct (re_sub_go_occurrence r t _ _ O2) as (g2 & _ & E2).
  destruct (re_sub_go_occurrence r t _ _ O3) as (g3 & _ & E3).
  rewrite (re_sub_go_gap r t _ _ G0), E1, Hexp.
  rewrite (re_sub_go_gap r t _ _ G1), E2, Hexp.
  rewrite (re_sub_go_gap r t _ _ G2), E3, Hexp.
  pose proof (re_sub_go_gap r t _ _ G3) as E4. rewrite app_nil_r in E4.
  rewrite E4. change (re_sub_go r t 0 []) with (@nil ascii).
  by rewrite app_nil_r.
Qed.

Lemma catch_rule_rewrites_three_occurrences_witness :
  re_sub Remaining.catch_block.1 Remaining.catch_block.2
    (lit "try { a() } " ++ lit "catch (error)" ++ lit " { b() } "
     ++ lit "catch(error)" ++ lit "{} "
     ++ (lit "catch" ++ map ascii_of_nat [194; 160]%nat ++ lit "( error )")
     ++ lit " {c}")
  = lit "try { a() } " ++ lit "catch (_error)" ++ lit " { b() } "
    ++ lit "catch (_error)" ++ lit "{} " ++ lit "catch (_error)" ++ lit " {c}".
Proof.
  apply (catch_rule_rewrites_three_occurrences
           (lit "try { a() } ") (lit "catch (error)") (lit " { b() } ")
           (lit "catch(error)") (lit "{} ")
           (lit "catch" ++ map ascii_of_nat [194; 160]%nat ++ lit "( error )")
           (lit " {c}"));
    try (vm_compute; reflexivity);
    (split; [discriminate | eexists; vm_compute; reflexivity]).
Defined.

(** ** [fix_remaining_syntax.py] on one file and on a batch *)



(** A file that exists and holds UTF-8 text is read, with its line ends
    translated, and written when the pipeline changes the text. *)
Lemma fix_file_present (file_path : string) (w : world) (bytes : str) :
  files w !! file_path = Some bytes → utf8_valid bytes = true →
  Remaining.fix_file_syntax_errors file_path w
  = if bool_decide (Remaining.apply_rules Remaining.rules (universal_newlines bytes)
                    = universal_newlines bytes)
    then Ok false (World (files w) (stdout w ++ [Remaining.msg_clean file_path]))
    else Ok true
           (World (<[file_path := Remaining.apply_rules Remaining.rules
                                    (universal_newlines bytes)]> (files w))
                  (stdout w ++ [Remaining.msg_fixed file_path])).
Proof.
  intros Hsome Hvalid.
  unfold Remaining.fix_file_syntax_errors, mbind, M_bind, path_exists, read_text.
  rewrite Hsome. rewrite bool_decide_eq_true_2 by eauto.
  cbn [negb]. rewrite Hsome, Hvalid. by destruct (bool_decide _).
Qed.

(** A file that exists and does not hold UTF-8 text makes the repair raise
    before it prints or writes. *)
Lemma fix_file_undecodable (file_path : string) (w : world) (bytes : str) :
  files w !! file_path = Some bytes → utf8_valid bytes = false →
  Remaining.fix_file_syntax_errors file_path w
  = Raise (UnicodeDecodeError file_path) w.
Proof.
  intros Hsome Hvalid.
  unfold Remaining.fix_file_syntax_errors, mbind, M_bind, path_exists, read_text.
  rewrite Hsome. rewrite bool_decide_eq_true_2 by eauto.
  cbn [negb]. by rewrite Hsome, Hvalid.
Qed.

(** C8.  When no pattern of the pipeline is found in a text, the pipeline
    returns the text as it is; and the repair of a file from which that
    text is read (UTF-8 bytes, line ends translated) writes nothing,
    prints that no syntax errors were found and returns [False]. *)
Theorem pipeline_without_match_changes_nothing
    (w : world) (file_path : string) (text bytes : str) :
  (∀ rule, rule ∈ Remaining.rules → re_search rule.1 text = false) →
  Remaining.apply_rules Remaining.rules text = text ∧
  (files w !! file_path = Some bytes → utf8_valid bytes = true →
   universal_newlines bytes = text →
   Remaining.fix_file_syntax_errors file_path w
   = Ok false (World (files w) (stdout w ++ [Remaining.msg_clean file_path]))).
Proof.
  intros Hnone.
  pose proof (apply_rules_not_found Remaining.rules text Hnone) as Hid.
  split; [done|]. intros Hfile Hvalid Htext.
  rewrite (fix_file_present file_path w bytes Hfile Hvalid), Htext.
  by rewrite bool_decide_eq_true_2.
Qed.

Lemma pipeline_without_match_changes_nothing_witness :
  Remaining.apply_rules Remaining.rules (lit "const x = 1;") = lit "const x = 1;" ∧
  Remaining.fix_file_syntax_errors "a.ts" clean_world
  = Ok false (World (files clean_world)
                    (stdout clean_world ++ [Remaining.msg_clean "a.ts"])).
Proof.
  destruct (pipeline_without_match_changes_nothing clean_world "a.ts"
              (lit "const x = 1;") (lit "const x = 1;")) as [Hsame Hfile].
  - intros rule Hin. unfold Remaining.rules in Hin.
    repeat (apply elem_of_cons in Hin as [->|Hin]; [vm_compute; reflexivity|]).
    by apply elem_of_nil in Hin.
  - split; [exact Hsame|]. apply Hfile.
    + apply lookup_singleton_eq.
    + vm_compute. reflexivity.
    + vm_compute. reflexivity.
Defined.












(** The driver of the script on a store in which no listed file exists. *)
Example main_on_empty_store :
  ∃ w', Remaining.main (World ∅ []) = Ok tt w' ∧
        stdout w' = map Remaining.msg_missing Remaining.files_to_fix
                    ++ [Remaining.msg_summary 0].
Proof. eexists. split; vm_compute; reflexivity. Qed.


(* ================================================================== *)
(** * Further properties of the scripts *)
(* ================================================================== *)

(** ** [clean_test_utils.py]: the span that the scan reports *)

(** X1.  An end index is reported only together with a start index; the
    start lies strictly before the end, the end within the lines, the start
    line contains the marker and no line after it up to the end does: the
    two slices of lines 37-38 are cut at valid indices. *)
Theorem found_span_is_in_bounds (lines : list str) (e : nat) :
  (Clean.find_responses lines).2 = Some e →
  ∃ s, (Clean.find_responses lines).1 = Some s ∧
       (s < e < length lines)%nat ∧
       marker_at lines s ∧
       ∀ k, (s < k ≤ e)%nat → ¬ marker_at lines k.
Proof.
  intros He. pose proof (find_responses_post lines) as Hpost.
  unfold scan_post in Hpost.
  destruct ((Clean.find_responses lines).1) as [s|].
  - destruct Hpost as (Hm & Hend & Hlast). exists s.
    destruct (proj1 (Hend e) He) as (Hrange & _ & _).
    repeat split; try done; try lia.
    intros k Hk Hmk. destruct (Hlast k Hmk) as [Hle | (e' & He' & Hlt)]; [lia|].
    rewrite He in He'. injection He' as <-. lia.
  - destruct Hpost as [_ Hnone]. congruence.
Qed.

Lemma found_span_is_in_bounds_witness :
  ∃ s, (Clean.find_responses responses_lines).1 = Some s ∧
       (s < 4 < length responses_lines)%nat ∧
       marker_at responses_lines s ∧
       ∀ k, (s < k ≤ 4)%nat → ¬ marker_at responses_lines k.
Proof.
  apply (found_span_is_in_bounds responses_lines 4).
  vm_compute. reflexivity.
Defined.

(** X2.  When exactly one line contains the marker, that line is the start
    the scan reports, and the end it reports is the first later line at
    which the running brace depth is 0, if there is one. *)
Theorem single_marker_is_start (lines : list str) (s : nat) :
  marker_at lines s → (∀ k, marker_at lines k → k = s) →
  (Clean.find_responses lines).1 = Some s ∧
  ∀ e, (Clean.find_responses lines).2 = Some e ↔ first_zero lines s e.
Proof.
  intros Hs Honly. pose proof (find_responses_post lines) as Hpost.
  unfold scan_post in Hpost.
  destruct ((Clean.find_responses lines).1) as [s'|].
  - destruct Hpost as (Hm & Hend & _).
    rewrite (Honly s' Hm) in *. done.
  - destruct Hpost as [Hno _]. exfalso. by apply (Hno s).
Qed.

Lemma single_marker_is_start_witness :
  (Clean.find_responses responses_lines).1 = Some 1%nat ∧
  ∀ e, (Clean.find_responses responses_lines).2 = Some e
       ↔ first_zero responses_lines 1 e.
Proof.
  apply (single_marker_is_start responses_lines 1).
  - exists Clean.marker. split; vm_compute; reflexivity.
  - intros k (l & Hl & Hm).
    destruct k as [|[|[|[|[|[|k]]]]]]; vm_compute in Hl;
      try discriminate Hl; try reflexivity;
      injection Hl as <-; vm_compute in Hm; discriminate Hm.
Defined.

(** X3.  Replacing a span by the lines it holds gives the lines back. *)
Theorem replace_span_by_itself (lines : list str) (start_line end_line : nat) :
  (start_line ≤ end_line)%nat →
  Clean.replace_span lines start_line end_line
    (take (end_line + 1 - start_line) (drop start_line lines))
  = lines.
Proof.
  intros Hse. unfold Clean.replace_span.
  rewrite take_take_drop.
  replace (start_line + (end_line + 1 - start_line))%nat with (end_line + 1)%nat by lia.
  apply take_drop.
Qed.

Lemma replace_span_by_itself_witness :
  Clean.replace_span responses_lines 1 4
    (take (4 + 1 - 1) (drop 1 responses_lines))
  = responses_lines.
Proof. apply (replace_span_by_itself responses_lines 1 4). lia. Defined.

(** ** Lines and line feeds *)

Lemma no_nl_nil : no_nl [].
Proof. unfold no_nl. apply not_elem_of_nil. Qed.

Lemma no_nl_cons (c : ascii) (l : str) :
  Ascii.eqb c newline = false → no_nl l → no_nl (c :: l).
Proof.
  unfold no_nl. intros Hc Hl. apply not_elem_of_cons. split; [|done].
  intros <-. by rewrite Ascii.eqb_refl in Hc.
Qed.

Lemma no_nl_app (a b : str) : no_nl a → no_nl b → no_nl (a ++ b).
Proof. unfold no_nl. intros Ha Hb. by apply not_elem_of_app. Qed.

Lemma no_nl_inv (c : ascii) (l : str) :
  no_nl (c :: l) → Ascii.eqb c newline = false ∧ no_nl l.
Proof.
  unfold no_nl. intros H. apply not_elem_of_cons in H as [Hc Hl]. split; [|done].
  apply Ascii.eqb_neq. congruence.
Qed.

Lemma no_nl_of_bool (ls : list str) :
  forallb (λ l, negb (existsb (Ascii.eqb newline) l)) ls = true → Forall no_nl ls.
Proof.
  intros H. apply Forall_forall. intros l Hl.
  rewrite forallb_forall in H. apply list_elem_of_In in Hl.
  specialize (H l Hl). apply negb_true_iff in H.
  unfold no_nl. intros Hin. apply list_elem_of_In in Hin.
  assert (existsb (Ascii.eqb newline) l = true); [|congruence].
  apply existsb_exists. exists newline. split; [done | apply Ascii.eqb_refl].
Qed.

(** The lines of a document hold no line feed. *)
Lemma str_split_no_nl (s : str) : Forall no_nl (str_split newline s).
Proof.
  induction s as [|c s IH]; simpl.
  - constructor; [apply no_nl_nil | constructor].
  - destruct (Ascii.eqb c newline) eqn:Hc.
    + constructor; [apply no_nl_nil | done].
    + destruct (str_split newline s) as [|l ls].
      * constructor; [|constructor]. apply no_nl_cons; [done | apply no_nl_nil].
      * inversion IH; subst. constructor; [|done]. by apply no_nl_cons.
Qed.

(** A text without line feed is one line. *)
Lemma str_split_one_line (s : str) : no_nl s → str_split newline s = [s].
Proof.
  induction s as [|c s IH]; [reflexivity|]. intros H.
  apply no_nl_inv in H as [Hc Hs]. simpl. rewrite Hc, (IH Hs). reflexivity.
Qed.

Lemma str_join_no_nl (sep : str) (ls : list str) :
  no_nl sep → Forall no_nl ls → no_nl (str_join sep ls).
Proof.
  intros Hsep. induction ls as [|l ls IH]; intros Hls; [apply no_nl_nil|].
  inversion Hls; subst. simpl. destruct ls as [|l' ls]; [done|].
  apply no_nl_app; [done|]. apply no_nl_app; [done|]. by apply IH.
Qed.

Lemma new_responses_no_nl : Forall no_nl Clean.new_responses.
Proof. apply no_nl_of_bool. vm_compute. reflexivity. Qed.

(** X4.  After a repair that found the responses object, a second run of
    the repair on the file it wrote changes nothing and prints that the
    responses object could not be found: the text written is one line. *)
Theorem second_repair_finds_nothing (w : world) (content : str) (s e : nat) :
  files w !! Clean.file_path = Some content →
  Clean.find_responses (str_split newline content) = (Some s, Some e) →
  ∃ w1, Clean.fix_test_utils_comprehensive w = Ok tt w1 ∧
        Clean.fix_test_utils_comprehensive w1
        = Ok tt (World (files w1) (stdout w1 ++ [Clean.could_not_find])).
Proof.
  intros Hfile Hfound. eexists. split; [by apply (run_found w content s e)|].
  set (written := str_join Clean.join_separator _).
  assert (Hone : str_split newline written = [written]).
  { apply str_split_one_line. apply str_join_no_nl.
    - apply no_nl_cons; [reflexivity|]. apply no_nl_cons; [reflexivity|]. apply no_nl_nil.
    - unfold Clean.replace_span. pose proof (str_split_no_nl content) as Hl.
      apply Forall_app. split; [apply Forall_app; split|].
      + by apply Forall_take.
      + apply new_responses_no_nl.
      + by apply Forall_drop. }
  apply (run_not_found _ written).
  - simpl. apply lookup_insert_eq.
  - right. rewrite Hone. unfold Clean.find_responses. simpl.
    by destruct (Clean.is_marker written).
Qed.

Lemma second_repair_finds_nothing_witness :
  ∃ w1, Clean.fix_test_utils_comprehensive
          (World {[ Clean.file_path := str_join [newline] responses_lines ]} []) = Ok tt w1 ∧
        Clean.fix_test_utils_comprehensive w1
        = Ok tt (World (files w1) (stdout w1 ++ [Clean.could_not_find])).
Proof.
  apply (second_repair_finds_nothing
           (World {[ Clean.file_path := str_join [newline] responses_lines ]} [])
           (str_join [newline] responses_lines) 1 4).
  - apply lookup_singleton_eq.
  - vm_compute. reflexivity.
Defined.

(** ** [fix_test_utils.py]: what the loop changes *)

Lemma run_preserves (lines : list str) (P : FixUtils.state → Prop) :
  (∀ st st', P st → FixUtils.step lines st = FixUtils.Next st' → P st') →
  ∀ fuel st st', P st →
    FixUtils.run fuel lines st = Some (FixUtils.Finished st') → P st'.
Proof.
  intros Hstep. induction fuel as [|fuel IH]; intros st st' HP Hrun; [done|].
  simpl in Hrun. destruct (FixUtils.step lines st) as [st1| |e] eqn:Hs.
  - apply (IH st1 st'); [by apply (Hstep st) | done].
  - by injection Hrun as <-.
  - done.
Qed.

(** A step that reads line [i] appends that line or, on the closing branch,
    its rewriting; a step that reads nothing appends nothing. *)
Lemma step_appends (lines : list str) (st st' : FixUtils.state) :
  FixUtils.step lines st = FixUtils.Next st' →
  (FixUtils.i st' = FixUtils.i st ∧
   FixUtils.fixed_lines st' = FixUtils.fixed_lines st) ∨
  (∃ l out, lines !! FixUtils.i st = Some l ∧
            FixUtils.i st' = S (FixUtils.i st) ∧
            FixUtils.fixed_lines st' = FixUtils.fixed_lines st ++ [out] ∧
            same_or_closed out l ∧
            (out ≠ l → FixUtils.in_block st = true)).
Proof.
  destruct st as [i fixed bc pc blk ex]. unfold FixUtils.step.
  cbn [FixUtils.i FixUtils.fixed_lines FixUtils.bracket_count
       FixUtils.paren_count FixUtils.in_block FixUtils.examined].
  destruct blk.
  - destruct ((i <? length lines)%nat && ((bc >? 0) || (pc >? 0)));
      [|intros [= <-]; by left].
    destruct (lines !! i) as [l|] eqn:Hl; [|done].
    destruct ((bc + brace_delta l =? 0)
              && bool_decide (str_strip l = lit "},")) eqn:Hc;
      intros [= <-]; right; exists l; eexists; repeat split; try done.
    + right. apply andb_true_iff in Hc as [_ Hs].
      by apply bool_decide_eq_true in Hs.
    + by left.
  - destruct (i <? length lines)%nat; [|done].
    destruct (lines !! i) as [l|] eqn:Hl; [|done].
    destruct (re_match FixUtils.opener l);
      intros [= <-]; right; exists l, l; repeat split; try done; by left.
Qed.

Lemma step_keeps_relation (lines : list str) (st st' : FixUtils.state) :
  Forall2 same_or_closed (FixUtils.fixed_lines st) (take (FixUtils.i st) lines) →
  FixUtils.step lines st = FixUtils.Next st' →
  Forall2 same_or_closed (FixUtils.fixed_lines st') (take (FixUtils.i st') lines).
Proof.
  intros Hrel Hstep.
  destruct (step_appends lines st st' Hstep)
    as [[-> ->] | (l & out & Hl & -> & -> & Hout & _)]; [done|].
  rewrite (take_S_r _ _ _ Hl). apply Forall2_app; [done|].
  constructor; [done | constructor].
Qed.

(** The loop puts out, for every line of the input and at the same index,
    either that line or, for a line whose stripped text is [},], that line
    with [},] replaced by [}),]. *)
Lemma loop_changes_only_closing_lines (lines : list str) :
  ∃ st, FixUtils.run (length lines + 2) lines FixUtils.init
        = Some (FixUtils.Finished st) ∧
        Forall2 same_or_closed (FixUtils.fixed_lines st) lines.
Proof.
  destruct (run_total lines (length lines) FixUtils.init)
    with (fuel := (length lines + 2)%nat)
    as (st & Hrun & _ & Hend); [simpl; lia | apply loop_inv_init | lia |].
  exists st. split; [done|].
  assert (Hinit : Forall2 same_or_closed (FixUtils.fixed_lines FixUtils.init)
                           (take (FixUtils.i FixUtils.init) lines))
    by constructor.
  pose proof (run_preserves lines
    (λ st, Forall2 same_or_closed (FixUtils.fixed_lines st)
                   (take (FixUtils.i st) lines))
    (step_keeps_relation lines) _ _ _ Hinit Hrun) as Hrel.
  simpl in Hrel. rewrite Hend in Hrel. by rewrite take_ge in Hrel.
Qed.

Lemma step_without_opener (lines : list str) (st st' : FixUtils.state) :
  (∀ l, l ∈ lines → re_match FixUtils.opener l = false) →
  FixUtils.in_block st = false ∧
    FixUtils.fixed_lines st = take (FixUtils.i st) lines →
  FixUtils.step lines st = FixUtils.Next st' →
  FixUtils.in_block st' = false ∧
    FixUtils.fixed_lines st' = take (FixUtils.i st') lines.
Proof.
  intros Hno [Hb Hfixed]. destruct st as [i fixed bc pc blk ex].
  simpl in Hb, Hfixed. subst blk. unfold FixUtils.step.
  cbn [FixUtils.i FixUtils.fixed_lines FixUtils.bracket_count
       FixUtils.paren_count FixUtils.in_block FixUtils.examined].
  destruct (i <? length lines)%nat; [|done].
  destruct (lines !! i) as [l|] eqn:Hl; [|done].
  rewrite (Hno l) by (by apply list_elem_of_lookup_2 in Hl).
  intros [= <-]. simpl. by rewrite (take_S_r _ _ _ Hl), Hfixed.
Qed.

Lemma same_or_closed_eq (outs ls : list str) :
  Forall2 same_or_closed outs ls →
  (∀ l, l ∈ ls → str_strip l ≠ lit "},") → outs = ls.
Proof.
  induction 1 as [|out l outs ls Hout Hrel IH]; intros Hno; [done|].
  f_equal.
  - destruct Hout as [-> | [Hs _]]; [done|].
    exfalso. apply (Hno l); [by left | done].
  - apply IH. intros l' Hl'. apply Hno. by right.
Qed.

(** When no line matches the opening pattern, or when no line has the
    stripped text [},], the output of the loop is the input. *)
Lemma loop_without_work_is_identity (lines : list str) :
  (∀ l, l ∈ lines → re_match FixUtils.opener l = false) ∨
  (∀ l, l ∈ lines → str_strip l ≠ lit "},") →
  ∃ st, FixUtils.run (length lines + 2) lines FixUtils.init
        = Some (FixUtils.Finished st) ∧
        FixUtils.fixed_lines st = lines.
Proof.
  intros Hcase.
  destruct (run_total lines (length lines) FixUtils.init)
    with (fuel := (length lines + 2)%nat)
    as (st & Hrun & _ & Hend); [simpl; lia | apply loop_inv_init | lia |].
  exists st. split; [done|]. destruct Hcase as [Hno | Hno].
  - assert (Hinit : FixUtils.in_block FixUtils.init = false ∧
                    FixUtils.fixed_lines FixUtils.init
                    = take (FixUtils.i FixUtils.init) lines) by done.
    pose proof (run_preserves lines
      (λ st, FixUtils.in_block st = false ∧
             FixUtils.fixed_lines st = take (FixUtils.i st) lines)
      (λ st st', step_without_opener lines st st' Hno) _ _ _
      Hinit Hrun) as [_ Hfixed].
    by rewrite Hfixed, Hend, take_ge.
  - assert (Hinit : Forall2 same_or_closed (FixUtils.fixed_lines FixUtils.init)
                             (take (FixUtils.i FixUtils.init) lines))
      by constructor.
    pose proof (run_preserves lines
      (λ st, Forall2 same_or_closed (FixUtils.fixed_lines st)
                     (take (FixUtils.i st) lines))
      (step_keeps_relation lines) _ _ _ Hinit Hrun) as Hrel.
    simpl in Hrel. rewrite Hend, take_ge in Hrel by done.
    by apply same_or_closed_eq.
Qed.

Lemma loop_without_work_is_identity_witness :
  ∃ st, FixUtils.run (length scenario_lines + 2) scenario_lines FixUtils.init
        = Some (FixUtils.Finished st) ∧
        FixUtils.fixed_lines st = scenario_lines.
Proof.
  apply (loop_without_work_is_identity scenario_lines). left.
  intros l Hl. unfold scenario_lines in Hl.
  repeat (apply elem_of_cons in Hl as [->|Hl]; [vm_compute; reflexivity|]).
  by apply elem_of_nil in Hl.
Defined.

(** ** [fix_test_utils.py]: the closing line *)

Lemma drop_blanks_pending (s : str) :
  ∀ pend, drop_blanks s pend = drop_blanks (drop pend s) 0.
Proof.
  induction s as [|c s IH]; intros [|pend]; try reflexivity.
  change (drop_blanks s pend = drop_blanks (drop pend s) 0). apply IH.
Qed.

(** Stripping on the left drops the blank at the head, if there is one, and
    goes on behind it. *)
Lemma drop_blanks_start (s : str) :
  drop_blanks s 0
  = match blank_len s with
    | S n => drop_blanks (drop (S n) s) 0
    | O => s
    end.
Proof.
  destruct s as [|c s]; [vm_compute; reflexivity|].
  change (drop_blanks (c :: s) 0)
    with (match blank_len (c :: s) with
          | S n => drop_blanks s n
          | O => c :: s
          end).
  destruct (blank_len (c :: s)) as [|n]; [done|]. exact (drop_blanks_pending s n).
Qed.

Lemma blank_len_le (s : str) : (blank_len s ≤ length s)%nat.
Proof.
  unfold blank_len. destruct (decode1 s) as [[cp n]|] eqn:Hd; [|lia].
  apply decode1_length in Hd. destruct (is_space_cp cp); lia.
Qed.

Lemma blank_len_prefix (s t : str) (n : nat) :
  blank_len s = S n → blank_len (take (S n) s ++ t) = S n.
Proof.
  unfold blank_len. destruct (decode1 s) as [[cp m]|] eqn:Hd; [|done].
  destruct (is_space_cp cp) eqn:Hsp; [|done]. intros ->.
  by rewrite (decode1_prefix s t cp (S n) Hd), Hsp.
Qed.

Lemma all_space_nil : all_space [].
Proof. vm_compute. reflexivity. Qed.

(** A blank in front of a run of blanks is a run of blanks. *)
Lemma all_space_blank (s a : str) (n : nat) :
  blank_len s = S n → all_space a → all_space (take (S n) s ++ a).
Proof.
  unfold all_space, is_blank_run. intros Hs Ha.
  rewrite drop_blanks_start, (blank_len_prefix s a n Hs).
  pose proof (blank_len_le s) as Hle.
  rewrite drop_app_length' by (rewrite length_take; lia). exact Ha.
Qed.

(** A run of blanks is empty or begins with a blank that is followed by a
    run of blanks. *)
Lemma all_space_inv (s : str) :
  all_space s →
  s = [] ∨ ∃ n, blank_len s = S n ∧ all_space (drop (S n) s).
Proof.
  unfold all_space, is_blank_run. rewrite drop_blanks_start.
  destruct (blank_len s) as [|n]; intros H.
  - left. by destruct s.
  - right. by exists n.
Qed.

Lemma lstrip_split (s : str) : ∃ a, s = a ++ lstrip s ∧ all_space a.
Proof.
  unfold lstrip. remember (length s) as len eqn:Hlen.
  revert s Hlen. induction len as [len IH] using lt_wf_ind. intros s ->.
  rewrite drop_blanks_start. destruct (blank_len s) as [|n] eqn:Hb.
  - exists []. split; [done | apply all_space_nil].
  - pose proof (blank_len_le s) as Hle.
    destruct (IH (length (drop (S n) s))) with (s := drop (S n) s)
      as (a & Hs & Ha); [rewrite length_drop; lia | done |].
    exists (take (S n) s ++ a). split.
    + rewrite <- app_assoc, <- Hs. by rewrite take_drop.
    + by apply all_space_blank.
Qed.

Lemma rstrip_split (s : str) : ∃ b, s = rstrip s ++ b ∧ all_space b.
Proof.
  induction s as [|c s (b & Hs & Hb)].
  - exists []. split; [done | apply all_space_nil].
  - cbn [rstrip]. destruct (is_blank_run (c :: s)) eqn:Hrun.
    + by exists (c :: s).
    + exists b. split; [|done]. simpl. by rewrite <- Hs.
Qed.

(** A line is its stripped text between two runs of blanks. *)
Lemma strip_split (l : str) :
  ∃ a b, l = a ++ str_strip l ++ b ∧ all_space a ∧ all_space b.
Proof.
  destruct (lstrip_split l) as (a & Hl & Ha).
  destruct (rstrip_split (lstrip l)) as (b & Hr & Hb).
  exists a, b. split; [|done]. unfold str_strip. by rewrite <- Hr.
Qed.

Lemma byte_not_closer (c : ascii) : byte c ≠ 125%N → c ≠ "}"%char.
Proof. intros H ->. by apply H. Qed.

Ltac byte_facts :=
  unfold in_rng in *;
  repeat match goal with
         | H : _ && _ = true |- _ => apply andb_true_iff in H as [? ?]
         | H : (_ <=? _)%N = true |- _ => apply N.leb_le in H
         | H : (_ <? _)%N = false |- _ => apply N.ltb_ge in H
         | H : context [if ?b then _ else _] |- _ => destruct b
         end.

(** No byte of a blank is a closing brace. *)
Lemma blank_bytes (s : str) (n : nat) :
  blank_len s = S n → Forall (λ c, c ≠ "}"%char) (take (S n) s).
Proof.
  unfold blank_len. destruct (decode1 s) as [[cp m]|] eqn:Hd; [|done].
  destruct (is_space_cp cp) eqn:Hsp; [|done]. intros ->.
  revert Hd. unfold decode1.
  destruct s as [|c0 [|c1 [|c2 [|c3 s]]]]; [done|..];
    repeat match goal with
           | |- context [if ?c then _ else _] => destruct c eqn:?
           end;
    intros [= <- <-] || done; cbn [take];
    repeat constructor; apply byte_not_closer;
    first [ by (intros E; rewrite E in Hsp; vm_compute in Hsp)
          | byte_facts; lia ].
Qed.

Lemma all_space_no_closer (a : str) :
  all_space a → Forall (λ c, c ≠ "}"%char) a.
Proof.
  remember (length a) as len eqn:Hlen.
  revert a Hlen. induction len as [len IH] using lt_wf_ind. intros a -> Ha.
  destruct (all_space_inv a Ha) as [-> | (n & Hb & Hrest)]; [constructor|].
  pose proof (blank_len_le a) as Hle.
  rewrite <- (take_drop (S n) a). apply Forall_app. split.
  - by apply blank_bytes.
  - apply (IH (length (drop (S n) a))); [rewrite length_drop; lia | done | done].
Qed.

Lemma replace_closer_over_blanks (new a rest : str) :
  all_space a →
  str_replace_go (lit "},") new 0 (a ++ rest)
  = a ++ str_replace_go (lit "},") new 0 rest.
Proof.
  intros Ha. apply all_space_no_closer in Ha.
  induction Ha as [|c a Hc Ha IH]; [reflexivity|].
  change (str_replace_go (lit "},") new 0 ((c :: a) ++ rest))
    with (if Ascii.eqb "}" c && starts_with (lit ",") (a ++ rest)
          then new ++ str_replace_go (lit "},") new 1 (a ++ rest)
          else c :: str_replace_go (lit "},") new 0 (a ++ rest)).
  destruct (Ascii.eqb "}" c) eqn:Hb.
  - apply Ascii.eqb_eq in Hb. by subst c.
  - cbn [andb]. rewrite IH. reflexivity.
Qed.

(** X7.  A line whose stripped text is [},] is that text between two runs
    of blanks, and the closing branch rewrites it to [}),] between the same
    two runs: the indentation is kept and one parenthesis is added. *)
Theorem closing_line_keeps_its_blanks (l : str) :
  str_strip l = lit "}," →
  ∃ a b, all_space a ∧ all_space b ∧
         l = a ++ lit "}," ++ b ∧
         str_replace (lit "},") (lit "}),") l = a ++ lit "})," ++ b.
Proof.
  intros Hs. destruct (strip_split l) as (a & b & Hl & Ha & Hb).
  rewrite Hs in Hl. exists a, b. repeat split; try done.
  unfold str_replace. rewrite Hl at 1.
  rewrite (replace_closer_over_blanks _ a _ Ha). f_equal.
  change (str_replace_go (lit "},") (lit "}),") 0 (lit "}," ++ b))
    with (lit "})," ++ str_replace_go (lit "},") (lit "}),") 0 b).
  f_equal. pose proof (replace_closer_over_blanks (lit "}),") b [] Hb) as H.
  by rewrite !app_nil_r in H.
Qed.

Lemma closing_line_keeps_its_blanks_witness :
  ∃ a b, all_space a ∧ all_space b ∧
         lit "    },  " = a ++ lit "}," ++ b ∧
         str_replace (lit "},") (lit "}),") (lit "    },  ") = a ++ lit "})," ++ b.
Proof.
  apply (closing_line_keeps_its_blanks (lit "    },  ")).
  vm_compute. reflexivity.
Defined.

(** ** [fix_test_utils.py]: where a block closes *)

Lemma closes_at_earlier (lines : list str) (k : nat) (bc : Z) (l : str) (j : nat) :
  lines !! k = Some l → (k < j)%nat →
  closes_at lines k bc j → closes_at lines (S k) (bc + brace_delta l) j.
Proof.
  intros Hl Hkj [_ (l' & Hj & Hz & Hs)]. split; [lia|].
  exists l'. split; [done|]. split; [|done].
  rewrite (drop_S _ _ _ Hl) in Hz.
  replace (S j - k)%nat with (S (S j - S k)) in Hz by lia.
  simpl in Hz. simpl. lia.
Qed.

Lemma scan_block_first_closer (lines : list str) (n : nat) :
  ∀ st j, (j - FixUtils.i st)%nat = n →
  FixUtils.in_block st = true → FixUtils.paren_count st = 1 →
  closes_at lines (FixUtils.i st) (FixUtils.bracket_count st) j →
  (∀ j', (j' < j)%nat →
         ¬ closes_at lines (FixUtils.i st) (FixUtils.bracket_count st) j') →
  ∀ fuel, (n + 1 ≤ fuel)%nat →
  ∃ l st', lines !! j = Some l ∧
           FixUtils.scan_block fuel lines st = Some (j, st') ∧
           FixUtils.fixed_lines st'
           = FixUtils.fixed_lines st
             ++ take (j - FixUtils.i st) (drop (FixUtils.i st) lines)
             ++ [str_replace (lit "},") (lit "}),") l] ∧
           FixUtils.i st' = S j ∧ FixUtils.bracket_count st' = 0.
Proof.
  induction n as [|n IH]; intros st j Hn Hb Hpc Hclose Hfirst fuel Hfuel;
    destruct fuel as [|fuel]; try lia;
    destruct st as [i fixed bc pc blk ex];
    cbn [FixUtils.i FixUtils.fixed_lines FixUtils.bracket_count
         FixUtils.paren_count FixUtils.in_block] in *;
    subst blk pc; pose proof Hclose as [Hij (l' & Hj & Hz & Hs)].
  - assert (j = i) as -> by lia.
    replace (S i - i)%nat with 1%nat in Hz by lia.
    rewrite (drop_S _ _ _ Hj) in Hz. simpl in Hz.
    assert (Hlt : (i <? length lines)%nat = true).
    { apply Nat.ltb_lt. by apply lookup_lt_Some in Hj. }
    exists l'. eexists. split; [done|].
    cbn [FixUtils.scan_block FixUtils.in_block]. unfold FixUtils.step.
    cbn [FixUtils.i FixUtils.fixed_lines FixUtils.bracket_count
         FixUtils.paren_count FixUtils.in_block FixUtils.examined].
    rewrite Hlt, Hj, orb_true_r. cbn [andb].
    rewrite (proj2 (Z.eqb_eq _ _)) by lia.
    rewrite bool_decide_eq_true_2 by done.
    cbn [andb FixUtils.in_block FixUtils.i].
    rewrite (proj2 (Nat.ltb_lt i (S i))) by lia.
    split; [reflexivity|]. simpl. rewrite Nat.sub_diag. simpl.
    repeat split; try done. lia.
  - assert (Hlt' : (i < length lines)%nat).
    { apply lookup_lt_Some in Hj. lia. }
    destruct (lookup_lt_is_Some_2 lines _ Hlt') as [l Hl].
    apply Nat.ltb_lt in Hlt' as Hlt.
    destruct (IH (FixUtils.State (S i) (fixed ++ [l]) (bc + brace_delta l) 1 true
                    (ex ++ [i])) j) with (fuel := fuel)
      as (l2 & st' & Hl2 & Hscan & Hfixed & Hi' & Hbc');
      [simpl; lia | done | done | | | lia | ].
    + simpl. apply (closes_at_earlier lines i bc l j); [done | lia | done].
    + simpl. intros j' Hj' Hc. apply (Hfirst j'); [done|].
      by apply (closes_at_later lines i bc l j').
    + exists l2, st'. split; [done|].
      cbn [FixUtils.scan_block FixUtils.in_block]. unfold FixUtils.step.
      cbn [FixUtils.i FixUtils.fixed_lines FixUtils.bracket_count
           FixUtils.paren_count FixUtils.in_block FixUtils.examined].
      rewrite Hlt, Hl, orb_true_r. cbn [andb].
      destruct ((bc + brace_delta l =? 0)
                && bool_decide (str_strip l = lit "},")) eqn:Hc.
      * exfalso. apply andb_true_iff in Hc as [Hz' Hs'].
        apply Z.eqb_eq in Hz'. apply bool_decide_eq_true in Hs'.
        apply (Hfirst i); [lia|]. by apply (closes_at_here lines i bc l).
      * cbn [FixUtils.in_block]. split; [exact Hscan|].
        simpl in Hfixed. split; [|done].
        rewrite Hfixed, <- app_assoc. f_equal.
        rewrite (drop_S _ _ _ Hl).
        replace (j - i)%nat with (S (j - S i)) by lia. done.
Qed.

(** X8.  From the state in which a block is entered before line [k], the
    loop takes its closing branch at the first line [j] at which the brace
    balance counted from 1 is 0 and whose stripped text is [},]: the lines
    [k .. j-1] are copied, line [j] is rewritten, and the scan is then at
    line [j+1] with the brace counter at 0. *)
Theorem block_closes_at_first_closer
    (lines fixed : list str) (ex : list nat) (k j : nat) :
  closes_at lines k 1 j →
  (∀ j', (j' < j)%nat → ¬ closes_at lines k 1 j') →
  ∃ l st', lines !! j = Some l ∧
           FixUtils.scan_block (length lines) lines
             (FixUtils.State k fixed 1 1 true ex) = Some (j, st') ∧
           FixUtils.fixed_lines st'
           = fixed ++ take (j - k) (drop k lines)
             ++ [str_replace (lit "},") (lit "}),") l] ∧
           FixUtils.i st' = S j ∧ FixUtils.bracket_count st' = 0.
Proof.
  intros Hclose Hfirst.
  apply (scan_block_first_closer lines (j - k)
           (FixUtils.State k fixed 1 1 true ex) j); try done.
  destruct Hclose as [Hkj (l & Hl & _)]. apply lookup_lt_Some in Hl. lia.
Qed.

Lemma block_closes_at_first_closer_witness :
  ∃ l st', quoted_lines !! 2%nat = Some l ∧
           FixUtils.scan_block (length quoted_lines) quoted_lines
             (FixUtils.State 1 [lit "'foo': (args) => ({"] 1 1 true [0%nat])
           = Some (2%nat, st') ∧
           FixUtils.fixed_lines st'
           = [lit "'foo': (args) => ({"] ++ take (2 - 1) (drop 1 quoted_lines)
             ++ [str_replace (lit "},") (lit "}),") l] ∧
           FixUtils.i st' = 3%nat ∧ FixUtils.bracket_count st' = 0.
Proof.
  apply (block_closes_at_first_closer quoted_lines
           [lit "'foo': (args) => ({"] [0%nat] 1 2).
  - split; [lia|]. exists (lit "},"). repeat split; vm_compute; reflexivity.
  - intros j' Hj' [Hk (l & Hl & Hz & Hs)].
    assert (j' = 1%nat) as -> by lia.
    vm_compute in Hl. injection Hl as <-. vm_compute in Hs. discriminate Hs.
Defined.

(** ** [fix_test_utils.py] as a whole *)

Lemma str_split_app_sep (l rest : str) :
  no_nl l → str_split newline (l ++ newline :: rest) = l :: str_split newline rest.
Proof.
  induction l as [|c l IH]; intros Hl.
  - reflexivity.
  - apply no_nl_inv in Hl as [Hc Hl]. simpl. by rewrite Hc, (IH Hl).
Qed.

(** Splitting the join of lines that hold no line feed gives the lines. *)
Lemma str_split_join (ls : list str) :
  ls ≠ [] → Forall no_nl ls → str_split newline (str_join [newline] ls) = ls.
Proof.
  induction ls as [|l ls IH]; [done|]. intros _ Hls. inversion Hls; subst.
  destruct ls as [|l' ls]; [by apply str_split_one_line|].
  change (str_join [newline] (l :: l' :: ls))
    with (l ++ newline :: str_join [newline] (l' :: ls)).
  rewrite str_split_app_sep by done. f_equal. by apply IH.
Qed.

Lemma str_replace_go_no_nl (old new : str) (s : str) :
  no_nl new → no_nl s → ∀ k, no_nl (str_replace_go old new k s).
Proof.
  intros Hnew. induction s as [|c s IH]; intros Hs k; [apply no_nl_nil|].
  apply no_nl_inv in Hs as [Hc Hs]. simpl. destruct k as [|k]; [|by apply IH].
  destruct (starts_with old (c :: s)).
  - apply no_nl_app; [done | by apply IH].
  - apply no_nl_cons; [done | by apply IH].
Qed.

Lemma same_or_closed_no_nl (outs ls : list str) :
  Forall2 same_or_closed outs ls → Forall no_nl ls → Forall no_nl outs.
Proof.
  induction 1 as [|out l outs ls Hout Hrel IH]; intros Hls; [constructor|].
  inversion Hls; subst. constructor; [|by apply IH].
  destruct Hout as [-> | [_ ->]]; [done|].
  apply str_replace_go_no_nl; [|done].
  apply no_nl_cons; [reflexivity|]. apply no_nl_cons; [reflexivity|].
  apply no_nl_cons; [reflexivity|]. apply no_nl_nil.
Qed.

(** A text without carriage returns is read as it is. *)
Lemma universal_newlines_lf (s : str) :
  carriage_return ∉ s → universal_newlines s = s.
Proof.
  induction s as [|c s IH]; [done|]. intros Hs.
  apply not_elem_of_cons in Hs as [Hc Hs]. cbn [universal_newlines].
  destruct (Ascii.eqb c carriage_return) eqn:E.
  - apply Ascii.eqb_eq in E. by destruct Hc.
  - by rewrite IH.
Qed.

Lemma script_reads (w : world) (bytes : str) :
  files w !! Script.file_path = Some bytes → utf8_valid bytes = true →
  read_text Script.file_path w = Ok (universal_newlines bytes) w.
Proof. intros Hfile Hvalid. unfold read_text. by rewrite Hfile, Hvalid. Qed.

(** X5.  On a store that holds the file as UTF-8 text, the script ends
    normally, prints one line and writes a document that has as many lines
    as the text it read, which is the text of the file with its line ends
    translated to line feeds: line for line that text, except that a line
    whose stripped text is [},] may have [},] replaced by [}),].  The
    encoding of the file, which the script leaves to the locale, is taken
    to be UTF-8. *)
Theorem script_rewrites_only_closing_lines (w : world) (bytes : str) :
  files w !! Script.file_path = Some bytes →
  utf8_valid bytes = true →
  ∃ fixed_lines,
    Script.script w
    = Some (Ok tt (World (<[Script.file_path := str_join [newline] fixed_lines]> (files w))
                         (stdout w ++ [lit "Fixed test-utils.ts"]))) ∧
    str_split newline (str_join [newline] fixed_lines) = fixed_lines ∧
    Forall2 same_or_closed fixed_lines (str_split newline (universal_newlines bytes)).
Proof.
  intros Hfile Hvalid.
  destruct (loop_changes_only_closing_lines (str_split newline (universal_newlines bytes)))
    as (st & Hrun & Hrel).
  exists (FixUtils.fixed_lines st). split; [|split; [|done]].
  - unfold Script.script. rewrite (script_reads w bytes Hfile Hvalid).
    cbn zeta. by rewrite Hrun.
  - apply str_split_join.
    + intros Hnil. rewrite Hnil in Hrel. apply Forall2_nil_inv_l in Hrel.
      by apply (str_split_nonempty newline (universal_newlines bytes)).
    + apply (same_or_closed_no_nl _ _ Hrel), str_split_no_nl.
Qed.

Lemma script_rewrites_only_closing_lines_witness :
  ∃ fixed_lines,
    Script.script script_world
    = Some (Ok tt (World (<[Script.file_path := str_join [newline] fixed_lines]>
                            (files script_world))
                         (stdout script_world ++ [lit "Fixed test-utils.ts"]))) ∧
    str_split newline (str_join [newline] fixed_lines) = fixed_lines ∧
    Forall2 same_or_closed fixed_lines
      (str_split newline
         (universal_newlines (text ["  'k': (args) => ({"; "    a: 1,"; "  },"; "};"]))).
Proof.
  apply (script_rewrites_only_closing_lines script_world
           (text ["  'k': (args) => ({"; "    a: 1,"; "  },"; "};"])).
  - apply lookup_singleton_eq.
  - vm_compute. reflexivity.
Defined.

(** What the script writes for [script_world]: the closing line of the
    block is rewritten, the other lines are as before. *)
Example script_example :
  ∃ w', Script.script script_world = Some (Ok tt w') ∧
        files w' !! Script.file_path
        = Some (text ["  'k': (args) => ({"; "    a: 1,"; "  }),"; "};"]).
Proof. eexists. split; vm_compute; reflexivity. Qed.

(** A closing line that is indented by a no-break space, U+00A0, is
    stripped and rewritten like any other. *)
Example script_strips_no_break_space :
  ∃ w', Script.script
          (World {[ Script.file_path :=
                      lit "'k': (a) => ({" ++ [newline]
                      ++ map ascii_of_nat [194; 160]%nat ++ lit "}," ]} [])
        = Some (Ok tt w') ∧
        files w' !! Script.file_path
        = Some (lit "'k': (a) => ({" ++ [newline]
                ++ map ascii_of_nat [194; 160]%nat ++ lit "}),").
Proof. eexists. split; vm_compute; reflexivity. Qed.

(** X6.  When no line of the text read matches the opening pattern, or
    when none has the stripped text [},], the script writes back the text
    it read: the file holds its old text with every line end a line feed,
    and a file without carriage returns is left as it is, as is every other
    file. *)
Theorem script_without_work_writes_back_text_read (w : world) (bytes : str) :
  files w !! Script.file_path = Some bytes →
  utf8_valid bytes = true →
  (∀ l, l ∈ str_split newline (universal_newlines bytes) →
        re_match FixUtils.opener l = false) ∨
  (∀ l, l ∈ str_split newline (universal_newlines bytes) →
        str_strip l ≠ lit "},") →
  Script.script w
  = Some (Ok tt (World (<[Script.file_path := universal_newlines bytes]> (files w))
                       (stdout w ++ [lit "Fixed test-utils.ts"]))) ∧
  (carriage_return ∉ bytes →
   Script.script w
   = Some (Ok tt (World (files w) (stdout w ++ [lit "Fixed test-utils.ts"])))).
Proof.
  intros Hfile Hvalid Hcase.
  destruct (loop_without_work_is_identity _ Hcase) as (st & Hrun & Hfixed).
  assert (Hscript : Script.script w
    = Some (Ok tt (World (<[Script.file_path := universal_newlines bytes]> (files w))
                         (stdout w ++ [lit "Fixed test-utils.ts"])))).
  { unfold Script.script. rewrite (script_reads w bytes Hfile Hvalid).
    cbn zeta. rewrite Hrun, Hfixed. by rewrite str_join_split. }
  split; [exact Hscript|]. intros Hlf.
  rewrite Hscript, (universal_newlines_lf bytes Hlf). by rewrite insert_id.
Qed.

Lemma script_without_work_writes_back_text_read_witness :
  Script.script crlf_world
  = Some (Ok tt (World (<[Script.file_path := text ["const x = {"; "};"] ]>
                          (files crlf_world))
                       (stdout crlf_world ++ [lit "Fixed test-utils.ts"]))).
Proof.
  destruct (script_without_work_writes_back_text_read crlf_world
              (lit "const x = {" ++ [carriage_return; newline] ++ lit "};"))
    as [Hscript _].
  - apply lookup_singleton_eq.
  - vm_compute. reflexivity.
  - right. intros l Hl. vm_compute in Hl.
    repeat (apply elem_of_cons in Hl as [->|Hl]; [vm_compute; discriminate|]).
    by apply elem_of_nil in Hl.
  - exact Hscript.
Defined.

(** ** [fix_remaining_syntax.py]: results and the summary *)

(** X9.  On a file that exists and holds UTF-8 text the repair ends
    normally, and its result is [True] exactly when the text the pipeline
    returns differs from the text read, which is the text of the file with
    its line ends translated to line feeds.  On [True] the file holds the
    text the pipeline returns; on [False] no file has changed; no other
    file changes in either case. *)
Theorem repair_result_tells_change (file_path : string) (w : world) (bytes : str) :
  files w !! file_path = Some bytes →
  utf8_valid bytes = true →
  ∃ fixed w',
    Remaining.fix_file_syntax_errors file_path w = Ok fixed w' ∧
    (fixed = true ↔ Remaining.apply_rules Remaining.rules (universal_newlines bytes)
                    ≠ universal_newlines bytes) ∧
    (fixed = true →
     files w' !! file_path
     = Some (Remaining.apply_rules Remaining.rules (universal_newlines bytes))) ∧
    (fixed = false → files w' = files w) ∧
    (∀ q, q ≠ file_path → files w' !! q = files w !! q).
Proof.
  intros Hfile Hvalid. rewrite (fix_file_present file_path w bytes Hfile Hvalid).
  case_bool_decide as Hsame.
  - eexists false, _. split; [reflexivity|]. cbn [files].
    split; [split; [done | intros Hne; by destruct Hne]|].
    split; [done|]. split; done.
  - eexists true, _. split; [reflexivity|]. cbn [files].
    split; [done|]. split; [intros _; apply lookup_insert_eq|]. split; [done|].
    intros q Hq. by rewrite lookup_insert_ne.
Qed.

Lemma repair_result_tells_change_witness :
  ∃ fixed w',
    Remaining.fix_file_syntax_errors "b.ts" batch_world = Ok fixed w' ∧
    (fixed = true ↔ Remaining.apply_rules Remaining.rules
                      (universal_newlines (lit "try {} catch (error) {}"))
                    ≠ universal_newlines (lit "try {} catch (error) {}")) ∧
    (fixed = true →
     files w' !! "b.ts"%string
     = Some (Remaining.apply_rules Remaining.rules
               (universal_newlines (lit "try {} catch (error) {}")))) ∧
    (fixed = false → files w' = files batch_world) ∧
    (∀ q, q ≠ "b.ts"%string → files w' !! q = files batch_world !! q).
Proof.
  apply (repair_result_tells_change "b.ts" batch_world (lit "try {} catch (error) {}")).
  - apply lookup_singleton_eq.
  - vm_compute. reflexivity.
Defined.

(** The pattern of line 30 takes a key with letters outside ASCII, and the
    blanks of the patterns take a no-break space. *)
Example rules_read_characters :
  Remaining.apply_rules Remaining.rules
    (lit "caf" ++ map ascii_of_nat [195; 169]%nat ++ lit ": 1" ++ [newline] ++ lit "b: 2")
  = lit "caf" ++ map ascii_of_nat [195; 169]%nat ++ lit ": 1," ++ [newline]
    ++ lit "    b: 2" ∧
  Remaining.apply_rules Remaining.rules
    (lit "try {} catch" ++ map ascii_of_nat [194; 160]%nat ++ lit "(error) {}")
  = lit "try {} catch (_error) {}".
Proof. split; vm_compute; reflexivity. Qed.



(** On that store the summary counts one file. *)
Example main_on_summary_world :
  ∃ w', Remaining.main summary_world = Ok tt w' ∧
        last (stdout w') = Some (Remaining.msg_summary 1).
Proof. eexists. split; vm_compute; reflexivity. Qed.

(** ** The patterns *)

(** X11.  Every pattern of [fix_remaining_syntax.py] and of
    [fix_test_utils_syntax.py] consumes at least one character: a
    substitution never replaces an empty piece of text. *)
Theorem patterns_never_match_empty
    (rule : regex * template) (s : str) (n : nat) (g : list str) :
  rule ∈ Remaining.rules ++ Syntax.rules →
  match_at rule.1 s = Some (n, g) → (0 < n)%nat.
Proof.
  intros Hin Hm. apply match_at_length in Hm.
  assert (1 ≤ min_len rule.1)%nat; [|lia].
  apply elem_of_app in Hin as [Hin | Hin].
  - unfold Remaining.rules in Hin.
    repeat (apply elem_of_cons in Hin as [->|Hin]; [vm_compute; lia|]).
    by apply elem_of_nil in Hin.
  - unfold Syntax.rules, Syntax.patterns_to_fix in Hin. simpl in Hin.
    repeat (apply elem_of_cons in Hin as [->|Hin]; [vm_compute; lia|]).
    by apply elem_of_nil in Hin.
Qed.

Lemma patterns_never_match_empty_witness : (0 < 12)%nat.
Proof.
  apply (patterns_never_match_empty Remaining.catch_block (lit "catch(error) {") 12 []).
  - apply elem_of_app. left. unfold Remaining.rules.
    do 5 (apply elem_of_cons; right). apply elem_of_cons. by left.
  - vm_compute. reflexivity.
Defined.

(** X12.  However many occurrences of the pattern of the catch rule a text
    has, one pass of the rule puts [catch (_error)] in the place of each of
    them and copies the stretches between them. *)
Theorem catch_rule_rewrites_every_occurrence (segs : list (str * str)) (last : str) :
  segmented Remaining.catch_block.1 segs last →
  re_sub Remaining.catch_block.1 Remaining.catch_block.2 (text_of segs last)
  = rewritten (lit "catch (_error)") segs last.
Proof.
  unfold re_sub. set (r := Remaining.catch_block.1). set (t := Remaining.catch_block.2).
  induction segs as [|[p m] segs IH]; simpl; intros Hseg.
  - pose proof (re_sub_go_gap r t last [] Hseg) as H.
    rewrite app_nil_r in H. rewrite H.
    change (re_sub_go r t 0 []) with (@nil ascii). by rewrite app_nil_r.
  - destruct Hseg as (Hgap & Hocc & Hrest).
    destruct (re_sub_go_occurrence r t _ _ Hocc) as (g & _ & Hm).
    rewrite (re_sub_go_gap r t _ _ Hgap), Hm, (IH Hrest). reflexivity.
Qed.

Lemma catch_rule_rewrites_every_occurrence_witness :
  re_sub Remaining.catch_block.1 Remaining.catch_block.2
    (text_of [(lit "try {} ", lit "catch (error)"); (lit " {} ", lit "catch(error)")]
             (lit " {}"))
  = rewritten (lit "catch (_error)")
      [(lit "try {} ", lit "catch (error)"); (lit " {} ", lit "catch(error)")]
      (lit " {}").
Proof.
  apply (catch_rule_rewrites_every_occurrence
           [(lit "try {} ", lit "catch (error)"); (lit " {} ", lit "catch(error)")]
           (lit " {}")).
  simpl. repeat split; try (vm_compute; reflexivity); try discriminate;
    eexists; vm_compute; reflexivity.
Defined.

(** ** [fix_test_utils_syntax.py] *)

(** X13.  When none of the patterns of [fix_test_utils] is found in the
    text read from the file, which holds UTF-8 text, the function writes
    back the text it read and prints its one line; it has no test that
    would keep it from writing.  The file then holds its old text with
    every line end a line feed, and a file without carriage returns is
    left as it is, as is every other file. *)
Theorem syntax_pass_without_match_writes_back_text_read (w : world) (bytes : str) :
  files w !! Syntax.file_path = Some bytes →
  utf8_valid bytes = true →
  (∀ rule, rule ∈ Syntax.rules → re_search rule.1 (universal_newlines bytes) = false) →
  Syntax.fix_test_utils w
  = Ok tt (World (<[Syntax.file_path := universal_newlines bytes]> (files w))
                 (stdout w ++ [Syntax.msg_done])) ∧
  (carriage_return ∉ bytes →
   Syntax.fix_test_utils w = Ok tt (World (files w) (stdout w ++ [Syntax.msg_done]))).
Proof.
  intros Hfile Hvalid Hnone.
  assert (Hpass : Syntax.fix_test_utils w
    = Ok tt (World (<[Syntax.file_path := universal_newlines bytes]> (files w))
                   (stdout w ++ [Syntax.msg_done]))).
  { unfold Syntax.fix_test_utils, mbind, M_bind, read_text.
    rewrite Hfile, Hvalid.
    by rewrite (apply_rules_not_found Syntax.rules _ Hnone). }
  split; [exact Hpass|]. intros Hlf.
  rewrite Hpass, (universal_newlines_lf bytes Hlf). by rewrite insert_id.
Qed.

Lemma syntax_pass_without_match_writes_back_text_read_witness :
  Syntax.fix_test_utils (World {[ Syntax.file_path := lit "const x = 1;" ]} [])
  = Ok tt (World (files (World {[ Syntax.file_path := lit "const x = 1;" ]} []))
                 (stdout (World {[ Syntax.file_path := lit "const x = 1;" ]} [])
                  ++ [Syntax.msg_done])).
Proof.
  destruct (syntax_pass_without_match_writes_back_text_read
              (World {[ Syntax.file_path := lit "const x = 1;" ]} [])
              (lit "const x = 1;")) as [_ Hsame].
  - apply lookup_singleton_eq.
  - vm_compute. reflexivity.
  - intros rule Hin. unfold Syntax.rules, Syntax.patterns_to_fix in Hin. simpl in Hin.
    repeat (apply elem_of_cons in Hin as [->|Hin]; [vm_compute; reflexivity|]).
    by apply elem_of_nil in Hin.
  - apply Hsame. vm_compute. intros Hin.
    repeat (apply elem_of_cons in Hin as [Hin|Hin]; [discriminate|]).
    by apply elem_of_nil in Hin.
Defined.

(** A no-break space between the parenthesis and the brace is a blank for
    the pattern of line 17. *)
Example syntax_pass_reads_no_break_space :
  Remaining.apply_rules Syntax.rules
    (lit "f()" ++ map ascii_of_nat [194; 160]%nat ++ lit "{ }")
  = lit "f() {}".
Proof. vm_compute. reflexivity. Qed.

(** On a text that needs it, the same function rewrites: blanks between a
    closing brace, a closing parenthesis and a comma go, and a line feed
    follows the comma. *)
Example syntax_pass_example :
  Remaining.apply_rules Syntax.rules (lit "f({ a: 1 }  )  ,  g(x) {  y }")
  = text ["f({ a: 1 }),"; "g(x) {y }"].
Proof. vm_compute. reflexivity. Qed.

(** ** [clean_test_utils.py]: the repaired lines *)

(** A scan that stops behind a first stretch of lines reaches the line
    after that stretch; when that line holds the marker the scan restarts
    there, whatever it has seen before. *)
Lemma scan_loop_reaches (pre : list str) :
  ∀ i start_line brace_count rest r e,
  Clean.scan_loop (pre ++ rest) i start_line brace_count = (r, Some e) →
  (i + length pre ≤ e)%nat →
  ∀ m rest', Clean.is_marker m = true →
  Clean.scan_loop (pre ++ m :: rest') i start_line brace_count
  = Clean.scan_loop rest' (S (i + length pre)) (Some (i + length pre)%nat) 1.
Proof.
  induction pre as [|l pre IH]; intros i st bc rest r e Hscan He m rest' Hm.
  - simpl. rewrite Hm. by rewrite Nat.add_0_r.
  - simpl in Hscan, He |- *.
    replace (i + S (length pre))%nat with (S i + length pre)%nat by lia.
    destruct (Clean.is_marker l).
    + apply (IH _ _ _ _ _ _ Hscan); [lia | done].
    + destruct st as [s|].
      * destruct (bc + brace_delta l =? 0).
        -- injection Hscan as _ <-. lia.
        -- apply (IH _ _ _ _ _ _ Hscan); [lia | done].
      * apply (IH _ _ _ _ _ _ Hscan); [lia | done].
Qed.

(** A scan that stops inside a stretch without marker line stops at the
    same place when lines follow the stretch and the indices are shifted. *)
Lemma scan_loop_stops_inside (pre : list str) :
  ∀ i a brace_count e,
  Clean.scan_loop pre i (Some a) brace_count = (Some a, Some e) →
  forallb (λ l, negb (Clean.is_marker l)) pre = true →
  ∀ after k b,
  Clean.scan_loop (pre ++ after) (i + k) (Some b) brace_count
  = (Some b, Some (e + k)%nat).
Proof.
  induction pre as [|l pre IH]; intros i a bc e Hscan Hno after k b; [done|].
  simpl in Hscan, Hno |- *. apply andb_true_iff in Hno as [Hl Hno].
  apply negb_true_iff in Hl. rewrite Hl in Hscan |- *.
  destruct (bc + brace_delta l =? 0).
  - by injection Hscan as <-.
  - by apply (IH (S i) a).
Qed.

(** X14.  In the lines that the repair puts together the scan finds the
    replacement block and nothing else: it starts where the old block
    started and ends 81 lines later; replacing that span once more gives
    the same lines. *)
Theorem repaired_lines_are_stable (lines : list str) (s e : nat) :
  Clean.find_responses lines = (Some s, Some e) →
  Clean.find_responses (Clean.replace_span lines s e Clean.new_responses)
  = (Some s, Some (s + 81)%nat) ∧
  Clean.replace_span (Clean.replace_span lines s e Clean.new_responses)
    s (s + 81) Clean.new_responses
  = Clean.replace_span lines s e Clean.new_responses.
Proof.
  intros Hfound.
  pose proof (find_responses_post lines) as Hpost. unfold scan_post in Hpost.
  rewrite Hfound in Hpost. simpl in Hpost. destruct Hpost as (_ & Hend & _).
  destruct (proj1 (Hend e) eq_refl) as ((Hse & He) & _ & _).
  assert (Hlen : length (take s lines) = s) by (rewrite length_take; lia).
  unfold Clean.replace_span. split.
  - destruct Clean.new_responses as [|m new_tail] eqn:Hnew; [discriminate Hnew|].
    assert (Hm : Clean.is_marker m = true).
    { injection Hnew as <- _. vm_compute. reflexivity. }
    assert (Htail : Clean.scan_loop new_tail 1 (Some 0%nat) 1 = (Some 0%nat, Some 81%nat)
                    ∧ forallb (λ l, negb (Clean.is_marker l)) new_tail = true).
    { injection Hnew as _ <-. split; vm_compute; reflexivity. }
    destruct Htail as [Hstop Hno].
    unfold Clean.find_responses in *.
    rewrite <- (take_drop s lines) in Hfound.
    rewrite <- !app_assoc. simpl.
    rewrite (scan_loop_reaches (take s lines) 0 None 0 _ _ _ Hfound)
      by (simpl; lia || done).
    simpl. rewrite Hlen.
    pose proof (scan_loop_stops_inside new_tail 1 0 1 81 Hstop Hno
                  (drop (e + 1) lines) s s) as H.
    replace (1 + s)%nat with (S s) in H by lia.
    replace (81 + s)%nat with (s + 81)%nat in H by lia. exact H.
  - assert (Hnew : length Clean.new_responses = 82%nat) by reflexivity.
    rewrite (take_app3_length' (take s lines)) by done.
    rewrite (drop_app_length' (take s lines ++ Clean.new_responses)); [done|].
    rewrite length_app, Hlen, Hnew. lia.
Qed.

Lemma repaired_lines_are_stable_witness :
  Clean.find_responses (Clean.replace_span responses_lines 1 4 Clean.new_responses)
  = (Some 1%nat, Some (1 + 81)%nat) ∧
  Clean.replace_span (Clean.replace_span responses_lines 1 4 Clean.new_responses)
    1 (1 + 81) Clean.new_responses
  = Clean.replace_span responses_lines 1 4 Clean.new_responses.
Proof.
  apply (repaired_lines_are_stable responses_lines 1 4).
  vm_compute. reflexivity.
Defined.
